(** * abydos: q-gram tokenizer and token-based similarity formulas

    A shallow embedding of
    - [abydos/tokenizer/_q_grams.py]            (class [QGrams]),
    - [abydos/distance/_weighted_jaccard.py]    (class [WeightedJaccard]),
    - [abydos/distance/_kuhns_viii.py]          (class [KuhnsVIII]),
    - [abydos/distance/_quantitative_jaccard.py] (class [QuantitativeJaccard]),
    - [abydos/distance/_generalized_fleiss.py]  (class [GeneralizedFleiss]).

    Python [str] is [string], Python [int] is [Z], a [Counter] is a
    [gmap string Z], a raised exception is the left summand of [result].
    The quotient computed by Python's true division [/] is the exact
    rational of [Q]; the float Python returns is its rounding. *)

From Stdlib Require Import ZArith QArith Lia Ascii.
From stdpp Require Import gmap strings list fin_maps.

Local Open Scope Z_scope.

(** ** Exceptions and the error monad *)

Inductive exn : Type :=
| ValueError (msg : string)
| ZeroDivisionError
| KeyError (key : string).

Definition result (A : Type) : Type := exn + A.

Definition Ok {A} (x : A) : result A := inr x.
Definition Raise {A} (e : exn) : result A := inl e.

(** Sequencing: an exception raised by the first computation is the
    outcome of the whole. [x ← m; k] is stdpp's notation for it. *)
Global Instance result_bind : MBind result := λ A B k m,
  match m with
  | inl e => inl e
  | inr x => k x
  end.

(** Reading a field or an accessor of the object a computation returns. *)
Global Instance result_fmap : FMap result := λ A B f m,
  match m with
  | inl e => inl e
  | inr x => inr (f x)
  end.

(** [for x in xs: body], threading the object state [st] through the body. *)
Fixpoint for_each {A S} (xs : list A) (body : A → S → result S) (st : S)
  : result S :=
  match xs with
  | [] => Ok st
  | x :: xs' => st' ← body x st; for_each xs' body st'
  end.

(** [[f(x) for x in xs]] where [f] may raise. *)
Fixpoint comprehension {A B} (f : A → result B) (xs : list A)
  : result (list B) :=
  match xs with
  | [] => Ok []
  | x :: xs' => y ← f x; ys ← comprehension f xs'; Ok (y :: ys)
  end.

(** ** Python built-ins used by the sources *)

Module Py.

(** [len(s)] *)
Definition len (s : string) : Z := Z.of_nat (String.length s).

(** [s * n] on strings; a count below one gives the empty string. *)
Fixpoint repeat (s : string) (n : nat) : string :=
  match n with
  | O => ""
  | S n' => s +:+ repeat s n'
  end.

Definition mul (s : string) (n : Z) : string := repeat s (Z.to_nat n).

(** [range(n)] *)
Definition range (n : Z) : list Z := Z.of_nat <$> seq 0 (Z.to_nat n).

(** [s[i]] for an index already known to be in range, as a string of
    length one. *)
Definition getitem (s : string) (i : Z) : string :=
  match String.get (Z.to_nat i) s with
  | Some c => String c ""
  | None => ""
  end.

(** The last character of the non-empty string [String c rest]:
    [s[-1]]. *)
Fixpoint last (c : ascii) (rest : string) : ascii :=
  match rest with
  | EmptyString => c
  | String c' rest' => last c' rest'
  end.

(** Index adjustment of an extended slice, as CPython's
    [PySlice_AdjustIndices] does it for one bound. *)
Definition adjust (n i step : Z) : Z :=
  if i <? 0 then
    let i' := i + n in
    if i' <? 0 then (if step <? 0 then -1 else 0) else i'
  else if i >=? n then (if step <? 0 then n - 1 else n)
  else i.

(** Number of items selected once both bounds are adjusted. *)
Definition slice_length (start stop step : Z) : Z :=
  if step <? 0 then
    (if stop <? start then (start - stop - 1) / (- step) + 1 else 0)
  else
    (if start <? stop then (stop - start - 1) / step + 1 else 0).

Fixpoint join (ls : list string) : string :=
  match ls with
  | [] => ""
  | s :: ls' => s +:+ join ls'
  end.

(** [s[start:stop:step]]; a zero step raises [ValueError]. *)
Definition slice (s : string) (start stop step : Z) : result string :=
  if step =? 0 then Raise (ValueError "slice step cannot be zero")
  else
    let n := len s in
    let a := adjust n start step in
    let b := adjust n stop step in
    Ok (join ((λ k, getitem s (a + k * step))
                <$> range (slice_length a b step))).

(** [x / y] under [from __future__ import division]; the quotient is
    kept in lowest terms, so that equal numbers are equal terms. *)
Definition truediv (x y : Q) : result Q :=
  if Qeq_bool y 0 then Raise ZeroDivisionError else Ok (Qred (x / y)).

(** [sum(xs)] *)
Definition sum (xs : list Z) : Z := foldr Z.add 0 xs.

End Py.

(** ** Counters *)

(** [c[tok]]: a missing key counts zero. *)
Definition count (c : gmap string Z) (tok : string) : Z :=
  default 0 (c !! tok).

(** [Counter(tokens)]: one increment per occurrence, left to right. *)
Definition Counter (tokens : list string) : gmap string Z :=
  foldl (λ c tok, <[tok := count c tok + 1]> c) ∅ tokens.

(** [sum(c.values())] *)
Definition total (c : gmap string Z) : Z :=
  Py.sum ((map_to_list c).*2).

(** ** The tokenizer base class *)

(** The [scaler] argument: [None], ['set'] or a callable. *)
Inductive scaler_t : Type :=
| ScalerNone
| ScalerSet
| ScalerCallable (f : Z → Z).

(** [qval] and [skip] are an [int] or an iterable of [int]s. *)
Inductive int_or_iterable : Type :=
| Int (z : Z)
| Iterable (zs : list Z).

Record QGrams : Type := mkQGrams {
  qval : int_or_iterable;
  start_stop : string;
  skip : int_or_iterable;
  _scaler : scaler_t;
  _string : string;
  _ordered_tokens : list string;
  _tokens : gmap string Z;
  _string_ss : string
}.

Definition set_qval (v : int_or_iterable) (self : QGrams) : QGrams :=
  mkQGrams v (start_stop self) (skip self) (_scaler self) (_string self)
           (_ordered_tokens self) (_tokens self) (_string_ss self).

Definition set_start_stop (v : string) (self : QGrams) : QGrams :=
  mkQGrams (qval self) v (skip self) (_scaler self) (_string self)
           (_ordered_tokens self) (_tokens self) (_string_ss self).

Definition set_skip (v : int_or_iterable) (self : QGrams) : QGrams :=
  mkQGrams (qval self) (start_stop self) v (_scaler self) (_string self)
           (_ordered_tokens self) (_tokens self) (_string_ss self).

Definition set_string (v : string) (self : QGrams) : QGrams :=
  mkQGrams (qval self) (start_stop self) (skip self) (_scaler self) v
           (_ordered_tokens self) (_tokens self) (_string_ss self).

Definition set_ordered_tokens (v : list string) (self : QGrams) : QGrams :=
  mkQGrams (qval self) (start_stop self) (skip self) (_scaler self)
           (_string self) v (_tokens self) (_string_ss self).

Definition set_tokens (v : gmap string Z) (self : QGrams) : QGrams :=
  mkQGrams (qval self) (start_stop self) (skip self) (_scaler self)
           (_string self) (_ordered_tokens self) v (_string_ss self).

Definition set_string_ss (v : string) (self : QGrams) : QGrams :=
  mkQGrams (qval self) (start_stop self) (skip self) (_scaler self)
           (_string self) (_ordered_tokens self) (_tokens self) v.

(** Modelled from the spec: [_Tokenizer.__init__] of
    [abydos/tokenizer/_tokenizer.py], which is not among the sources. A new
    tokenizer keeps its scaler and holds the empty string, no ordered
    tokens and an empty multiset; [qval], [start_stop] and [skip] are
    assigned by [QGrams.__init__]. *)
Definition _Tokenizer__init__ (scaler : scaler_t) : QGrams :=
  mkQGrams (Int 0) "" (Int 0) scaler "" [] ∅ "".

(** Modelled from the spec: the scaling step of [_Tokenizer.tokenize]
    (section 4.1, step 7): [None] changes nothing, ['set'] clamps every
    positive count to 1, a callable is applied to every count. *)
Definition scale (scaler : scaler_t) (c : gmap string Z) : gmap string Z :=
  match scaler with
  | ScalerNone => c
  | ScalerSet => (λ v, if 0 <? v then 1 else v) <$> c
  | ScalerCallable f => f <$> c
  end.

(** Modelled from the spec: [_Tokenizer.tokenize()] called without a
    string (section 4.1, step 7): the multiset is rebuilt by counting the
    ordered token sequence, then scaled. *)
Definition _Tokenizer_tokenize (self : QGrams) : QGrams :=
  set_tokens (scale (_scaler self) (Counter (_ordered_tokens self))) self.

(** ** [QGrams] *)

(** [QGrams.__init__] *)
Definition QGrams__init__
    (qval : int_or_iterable) (start_stop : string)
    (skip : int_or_iterable) (scaler : scaler_t) : result QGrams :=
  match qval with
  | Int 0 => Raise (ValueError "Use WhitespaceTokenizer instead of qval=0.")
  | _ =>
    let self := _Tokenizer__init__ scaler in
    let self := set_qval qval self in
    let self := set_start_stop start_stop self in
    let self := match qval with
                | Int 1 => set_start_stop "" self
                | _ => self
                end in
    let self := set_skip skip self in
    Ok (set_string_ss (_string self) self)
  end.

(** [if not isinstance(v, Iterable): v = (v,)] *)
Definition as_iterable (v : int_or_iterable) : list Z :=
  match v with
  | Int z => [z]
  | Iterable zs => zs
  end.

(** The string the grams of length [qval_i] are cut from: the input
    between [qval_i - 1] copies of the first and of the last character of
    [start_stop], or the input itself when [start_stop] is empty. *)
Definition padded (start_stop : string) (s : string) (qval_i : Z) : string :=
  match start_stop with
  | EmptyString => s
  | String c rest =>
      Py.mul (String c "") (qval_i - 1)
      +:+ s
      +:+ Py.mul (String (Py.last c rest) "") (qval_i - 1)
  end.

(** The list comprehension of lines 162-165, [skip_i] already
    incremented. *)
Definition grams (s : string) (qval_i skip_i : Z) : result (list string) :=
  comprehension
    (λ i, Py.slice s i (i + qval_i * skip_i) skip_i)
    (Py.range (Py.len s - (qval_i - 1))).

(** Body of the two nested loops of [QGrams.tokenize]. *)
Definition tokenize_body (qval_i skip_i : Z) (self : QGrams)
  : result QGrams :=
  if bool_decide (Py.len (_string self) < qval_i ∨ qval_i < 1) then
    Ok self
  else
    let s := padded (start_stop self) (_string self) qval_i in
    let self :=
      if bool_decide (Py.len s > Py.len (_string_ss self))
      then set_string_ss s self else self in
    let skip_i := skip_i + 1 in
    toks ← grams s qval_i skip_i;
    Ok (set_ordered_tokens (_ordered_tokens self ++ toks) self).

(** [QGrams.tokenize] *)
Definition tokenize (s : string) (self : QGrams) : result QGrams :=
  let self := set_string s self in
  let self := set_ordered_tokens [] self in
  let self := set_qval (Iterable (as_iterable (qval self))) self in
  let self := set_skip (Iterable (as_iterable (skip self))) self in
  self ← for_each (as_iterable (qval self))
           (λ qval_i, for_each (as_iterable (skip self))
                        (λ skip_i, tokenize_body qval_i skip_i)) self;
  Ok (_Tokenizer_tokenize self).

(** [QGrams()]: [qval=2, start_stop='$#', skip=0, scaler=None]. *)
Definition QGrams_default : result QGrams :=
  QGrams__init__ (Int 2) "$#" (Int 0) ScalerNone.

(** [QGrams(...).tokenize(s)] *)
Definition new_tokenize (qval : int_or_iterable) (start_stop : string)
    (skip : int_or_iterable) (scaler : scaler_t) (s : string)
  : result QGrams :=
  self ← QGrams__init__ qval start_stop skip scaler; tokenize s self.

(** ** The cardinality engine *)

(** The base class [_TokenDistance] of
    [abydos/distance/_token_distance.py] is not among the sources; the
    formulas below only call it. It is modelled here from section 4.2 of
    the specification, for the crisp intersection type (the default of
    every formula class). *)

(** Modelled from the spec: the [alphabet] argument, [None], an explicit
    size, or an explicit multiset. *)
Inductive alphabet_t : Type :=
| AlphabetNone
| AlphabetSize (n : Z)
| AlphabetCounter (c : gmap string Z).

Record _TokenDistance : Type := mkTokenDistance {
  tokenizer : QGrams;
  alphabet : alphabet_t;
  _src_tokens : gmap string Z;
  _tar_tokens : gmap string Z
}.

(** Modelled from the spec: [_TokenDistance.__init__]; with
    [tokenizer=None] the instance uses the QGram tokenizer with its
    default parameters. *)
Definition _TokenDistance__init__
    (alphabet : alphabet_t) (tokenizer : option QGrams)
  : result _TokenDistance :=
  tk ← match tokenizer with
       | Some tk => Ok tk
       | None => QGrams_default
       end;
  Ok (mkTokenDistance tk alphabet ∅ ∅).

(** Modelled from the spec: [_TokenDistance.tokenize(src, tar)] (called
    [_tokenize] by some formulas), which stores both multisets via the
    tokenizer. *)
Definition _tokenize (src tar : string) (self : _TokenDistance)
  : result _TokenDistance :=
  tk ← tokenize src (tokenizer self);
  let src_tokens := _tokens tk in
  tk ← tokenize tar tk;
  Ok (mkTokenDistance tk (alphabet self) src_tokens (_tokens tk)).

(** Modelled from the spec: the tokens observed in either multiset, the
    range of the sums of the crisp table. *)
Definition observed (self : _TokenDistance) : list string :=
  elements (dom (_src_tokens self) ∪ dom (_tar_tokens self)).

(** Modelled from the spec: [intersection_card()], a: the sum over tokens
    of min(count in src, count in tar). *)
Definition intersection_card (self : _TokenDistance) : Z :=
  Py.sum ((λ tok, Z.min (count (_src_tokens self) tok)
                        (count (_tar_tokens self) tok)) <$> observed self).

(** Modelled from the spec: [x - y] where positive, else nothing. *)
Definition positive_part (x y : Z) : Z :=
  if 0 <? x - y then x - y else 0.

(** Modelled from the spec: [src_only_card()], b: the sum of
    (count in src - count in tar) where positive. *)
Definition src_only_card (self : _TokenDistance) : Z :=
  Py.sum ((λ tok, positive_part (count (_src_tokens self) tok)
                                (count (_tar_tokens self) tok))
            <$> observed self).

(** Modelled from the spec: [tar_only_card()], c: the sum of
    (count in tar - count in src) where positive. *)
Definition tar_only_card (self : _TokenDistance) : Z :=
  Py.sum ((λ tok, positive_part (count (_tar_tokens self) tok)
                                (count (_src_tokens self) tok))
            <$> observed self).

(** Modelled from the spec: [population_card()], n: the alphabet size, or
    the explicit count, or the union of the observed tokens. *)
Definition population_card (self : _TokenDistance) : Z :=
  match alphabet self with
  | AlphabetNone =>
      Py.sum ((λ tok, Z.max (count (_src_tokens self) tok)
                            (count (_tar_tokens self) tok))
                <$> observed self)
  | AlphabetSize n => n
  | AlphabetCounter c => total c
  end.

(** Modelled from the spec: [total_complement_card()], d:
    [population_card() - a - b - c]. *)
Definition total_complement_card (self : _TokenDistance) : Z :=
  population_card self - intersection_card self - src_only_card self
  - tar_only_card self.

(** Modelled from the spec: [_total()], the multiset sum of the two token
    multisets; a [Counter] sum keeps the positive counts only. *)
Definition _total (self : _TokenDistance) : gmap string Z :=
  filter (λ kv, 0 < kv.2)
         (union_with (λ x y, Some (x + y))
                     (_src_tokens self) (_tar_tokens self)).

(** ** [WeightedJaccard] *)

Record WeightedJaccard : Type := mkWeightedJaccard {
  weight : Z;
  wj_base : _TokenDistance
}.

(** [WeightedJaccard.__init__], with [weight=3] by default. *)
Definition WeightedJaccard__init__ (tokenizer : option QGrams) (weight : Z)
  : result WeightedJaccard :=
  base ← _TokenDistance__init__ AlphabetNone tokenizer;
  Ok (mkWeightedJaccard weight base).

(** [WeightedJaccard.sim] *)
Definition WeightedJaccard_sim (self : WeightedJaccard) (src tar : string)
  : result Q :=
  base ← _tokenize src tar (wj_base self);
  let a := intersection_card base in
  let b := src_only_card base in
  let c := tar_only_card base in
  Py.truediv (inject_Z (weight self * a))
             (inject_Z (weight self * a + b + c)).

(** Plain Jaccard similarity, in the words of the specification:
    a / (a + b + c), where a, b, c are the crisp intersection, src-only
    and tar-only cardinalities. *)
Definition Jaccard_sim (self : _TokenDistance) (src tar : string)
  : result Q :=
  base ← _tokenize src tar self;
  let a := intersection_card base in
  let b := src_only_card base in
  let c := tar_only_card base in
  Py.truediv (inject_Z a) (inject_Z (a + b + c)).

(** ** [KuhnsVIII] *)

(** [KuhnsVIII.sim]; the instance is its [_TokenDistance] base. *)
Definition KuhnsVIII_sim (self : _TokenDistance) (src tar : string)
  : result Q :=
  base ← _tokenize src tar self;
  let a := intersection_card base in
  let b := src_only_card base in
  let c := tar_only_card base in
  let n := population_card base in
  q ← Py.truediv (inject_Z (2 * a + b + c)) (inject_Z n);
  let delta_ab := (inject_Z a - q)%Q in
  Py.truediv delta_ab (inject_Z a + (1 # 2) * inject_Z (b + c))%Q.

(** ** [QuantitativeJaccard] *)

(** [QuantitativeJaccard.sim]; the instance is its [_TokenDistance]
    base. *)
Definition QuantitativeJaccard_sim (self : _TokenDistance)
    (src tar : string) : result Q :=
  base ← _tokenize src tar self;
  let alphabet := elements (dom (_total base)) in
  let product :=
    Py.sum ((λ tok, count (_src_tokens base) tok
                    * count (_tar_tokens base) tok) <$> alphabet) in
  Py.truediv
    (inject_Z product)
    (inject_Z
       (Py.sum ((λ tok, count (_src_tokens base) tok
                        * count (_src_tokens base) tok) <$> alphabet)
        + Py.sum ((λ tok, count (_tar_tokens base) tok
                          * count (_tar_tokens base) tok) <$> alphabet)
        - product)).

(** ** [GeneralizedFleiss] *)

(** Modelled from the spec: [amean] of [abydos/stats/_mean.py], the
    arithmetic mean of a sequence of numbers (section 4.3). *)
Definition amean (nums : list Q) : result Q :=
  Py.truediv (foldr Qplus 0%Q nums) (inject_Z (Z.of_nat (length nums))).

(** The [mean_func] argument: a name of the registry [means] or a
    callable. *)
Inductive mean_func_t : Type :=
| MeanName (name : string)
| MeanCallable (f : list Q → result Q).

Record GeneralizedFleiss : Type := mkGeneralizedFleiss {
  mean_func : mean_func_t;
  marginals : string;
  proportional : bool;
  gf_base : _TokenDistance
}.

Section GeneralizedFleiss.

(** The thirteen registered means other than ['arithmetic'] (geometric,
    harmonic, ...) come from [abydos/stats/_mean.py]; the registry is
    taken with these entries left open. *)
Variable other_means : string → option (list Q → result Q).

(** The dictionary [means]; a name not in it raises [KeyError]. *)
Definition means (name : string) : result (list Q → result Q) :=
  if decide (name = "arithmetic") then Ok amean
  else match other_means name with
       | Some f => Ok f
       | None => Raise (KeyError name)
       end.

(** [GeneralizedFleiss.sim] *)
Definition GeneralizedFleiss_sim (self : GeneralizedFleiss)
    (src tar : string) : result Q :=
  base ← _tokenize src tar (gf_base self);
  let a := inject_Z (intersection_card base) in
  let b := inject_Z (src_only_card base) in
  let c := inject_Z (tar_only_card base) in
  let d := inject_Z (total_complement_card base) in
  let n := inject_Z (population_card base) in
  '(a, b, c, d) ←
    (if proportional self then
       a ← Py.truediv a n; b ← Py.truediv b n;
       c ← Py.truediv c n; d ← Py.truediv d n;
       Ok (a, b, c, d)
     else Ok (a, b, c, d));
  let mps :=
    (if decide (marginals self = "b") then
       [(a + b) * (a + c); (c + d) * (b + d)]
     else if decide (marginals self = "c") then
       [(a + b) * (b + d); (a + c) * (c + d)]
     else
       [(a + b) * (c + d); (a + c) * (c + d)])%Q in
  mean_value ←
    match mean_func self with
    | MeanCallable f => f mps
    | MeanName name => f ← means name; f mps
    end;
  Py.truediv (a * d - b * c)%Q mean_value.

(** [GeneralizedFleiss()]: [alphabet=None, tokenizer=None,
    mean_func='arithmetic', marginals='a', proportional=False]. *)
Definition GeneralizedFleiss_default : result GeneralizedFleiss :=
  base ← _TokenDistance__init__ AlphabetNone None;
  Ok (mkGeneralizedFleiss (MeanName "arithmetic") "a" false base).

End GeneralizedFleiss.

(** ** [KuderRichardson] *)

(** [KuderRichardson.sim] of [abydos/distance/_kuder_richardson.py]; the
    instance is its [_TokenDistance] base. *)
Definition KuderRichardson_sim (self : _TokenDistance) (src tar : string)
  : result Q :=
  base ← _tokenize src tar self;
  let a := intersection_card base in
  let b := src_only_card base in
  let c := tar_only_card base in
  let d := total_complement_card base in
  Py.truediv
    (inject_Z (4 * (a * d - b * c)))
    (inject_Z ((a + b) * (c + d) + (a + c) * (b + d) + 2 * (a * d - b * c))).

(** ** The multiset operators of [QGrams] *)

(** A count is stored only when it is positive. *)
Definition keep_positive (n : Z) : option Z :=
  if 0 <? n then Some n else None.

(** [Counter.__and__] of Python's [collections]: for every element of
    the left operand the smaller of the two counts, kept when positive. *)
Definition Counter_and (c1 c2 : gmap string Z) : gmap string Z :=
  map_imap
    (λ elem cnt,
       let other_count := count c2 elem in
       keep_positive (if cnt <? other_count then cnt else other_count))
    c1.

(** [Counter.__add__]: the sum of the counts for the elements of the
    left operand, and the count of the right operand for the elements
    that are only there; positive results only. *)
Definition Counter_add (c1 c2 : gmap string Z) : gmap string Z :=
  merge (λ x y,
           match x, y with
           | Some cnt, _ => keep_positive (cnt + default 0 y)
           | None, Some cnt => keep_positive cnt
           | None, None => None
           end) c1 c2.

(** [Counter.__sub__]: the difference of the counts for the elements of
    the left operand, kept when positive; an element only in the right
    operand is kept, negated, when its count is negative. *)
Definition Counter_sub (c1 c2 : gmap string Z) : gmap string Z :=
  merge (λ x y,
           match x, y with
           | Some cnt, _ => keep_positive (cnt - default 0 y)
           | None, Some cnt => if cnt <? 0 then Some (0 - cnt) else None
           | None, None => None
           end) c1 c2.

(** Modelled from the spec: [_Tokenizer.get_counter()] (section 6), the
    multiset of the last [tokenize]. *)
Definition get_counter (self : QGrams) : gmap string Z := _tokens self.

(** [QGrams.__and__] *)
Definition QGrams__and__ (self other : QGrams) : gmap string Z :=
  Counter_and (get_counter self) (get_counter other).

(** [QGrams.__add__] *)
Definition QGrams__add__ (self other : QGrams) : gmap string Z :=
  Counter_add (get_counter self) (get_counter other).

(** [QGrams.__sub__] *)
Definition QGrams__sub__ (self other : QGrams) : gmap string Z :=
  Counter_sub (get_counter self) (get_counter other).

(** ** Notions used in the statements *)

(** The positions a slice with a positive step reads, from an in-range
    start: [start, start + step, ...] below [min stop (len s)]. *)
Definition slice_positions (n start stop step : Z) : list Z :=
  (λ k, start + k * step)
    <$> Py.range ((Z.min stop n - start - 1) / step + 1).

(** The gram cut at start index [i]. *)
Definition gram_at (p : string) (q step i : Z) : string :=
  Py.join (Py.getitem p
             <$> slice_positions (Py.len p) i (i + q * step) step).

(** Two tokenizer objects with the same configuration. *)
Definition same_config (x y : QGrams) : Prop :=
  as_iterable (qval x) = as_iterable (qval y)
  ∧ start_stop x = start_stop y
  ∧ as_iterable (skip x) = as_iterable (skip y)
  ∧ _scaler x = _scaler y.

(** Two tokenizer objects that differ at most in the saved padded string
    and in the multiset. *)
Definition agree (x y : QGrams) : Prop :=
  same_config x y
  ∧ _string x = _string y
  ∧ _ordered_tokens x = _ordered_tokens y.

(** Two outcomes: the same exception, or related values. *)
Definition result_rel {A} (R : A → A → Prop) (r1 r2 : result A) : Prop :=
  match r1, r2 with
  | inl e1, inl e2 => e1 = e2
  | inr x, inr y => R x y
  | _, _ => False
  end.

(** How often a token occurs in a token sequence. *)
Definition occurrences (tok : string) (toks : list string) : Z :=
  Z.of_nat (length (filter (λ t, t = tok) toks)).

(** The object the loops of [tokenize] start from, and the loops. *)
Definition start_state (s : string) (qs : list Z) (self : QGrams) : QGrams :=
  mkQGrams (Iterable qs) (start_stop self)
           (Iterable (as_iterable (skip self))) (_scaler self) s []
           (_tokens self) (_string_ss self).

Definition loops (qs sks : list Z) (self : QGrams) : result QGrams :=
  for_each qs (λ q, for_each sks (λ sk, tokenize_body q sk)) self.

(** Two tokenizer objects with the same boundary symbols and input, the
    second holding the ordered tokens of the first after the prefix
    [pre]. *)
Definition extends (pre : list string) (x y : QGrams) : Prop :=
  start_stop x = start_stop y
  ∧ _string x = _string y
  ∧ _ordered_tokens y = pre ++ _ordered_tokens x.

(** Two engine states holding the same two multisets in opposite
    roles. *)
Definition swapped (x y : _TokenDistance) : Prop :=
  _src_tokens x = _tar_tokens y
  ∧ _tar_tokens x = _src_tokens y
  ∧ alphabet x = alphabet y.

(** Every count a multiset stores is at least 1. *)
Definition positive_counts (c : gmap string Z) : Prop :=
  ∀ tok v, c !! tok = Some v → 1 ≤ v.

(** * Properties *)

(** ** The loops of [tokenize] *)

(** A loop whose body leaves the state as it is, leaves it as it is. *)
Lemma for_each_skip {A S} (xs : list A) (body : A → S → result S) st :
  (∀ x, x ∈ xs → body x st = Ok st) → for_each xs body st = Ok st.
Proof.
  induction xs as [|x xs IH]; intros Hbody; simpl; [done|].
  rewrite Hbody by left. simpl. apply IH. intros y Hy. apply Hbody. by right.
Qed.

(** A [(qval_i, skip_i)] pair behind the guard of line 144 is skipped. *)
Lemma tokenize_body_guarded qval_i skip_i self :
  Py.len (_string self) < qval_i ∨ qval_i < 1 →
  tokenize_body qval_i skip_i self = Ok self.
Proof. intros H. unfold tokenize_body. by rewrite bool_decide_eq_true_2. Qed.

(** When every candidate length is behind the guard, [tokenize] produces
    no token, whatever the skips, the boundary symbols and the scaler. *)
Lemma tokenize_all_guarded s self :
  (∀ q, q ∈ as_iterable (qval self) → Py.len s < q ∨ q < 1) →
  ∃ self', tokenize s self = Ok self'
           ∧ _ordered_tokens self' = [] ∧ _tokens self' = ∅
           ∧ _string_ss self' = _string_ss self.
Proof.
  intros Hq. unfold tokenize. cbn [qval skip set_skip set_qval set_string
    set_ordered_tokens as_iterable].
  rewrite for_each_skip.
  - eexists. split; [reflexivity|]. cbn. split; [done|]. split; [|done].
    destruct (_scaler self); cbn; by rewrite ?fmap_empty.
  - intros q Hin. apply for_each_skip. intros sk _.
    apply tokenize_body_guarded. cbn. by apply Hq.
Qed.

(** ** The documented example *)

(** C1: with the default configuration (bigrams, boundary symbols [$#],
    no skip, no scaler), [QGrams().tokenize('AATTATAT')] holds exactly the
    multiset AT:3, TA:2, $A:1, AA:1, TT:1, T#:1. *)
Theorem C1_default_bigrams_of_AATTATAT :
  _tokens <$> new_tokenize (Int 2) "$#" (Int 0) ScalerNone "AATTATAT"
  = Ok {[ "AT" := 3; "TA" := 2; "$A" := 1; "AA" := 1; "TT" := 1;
          "T#" := 1 ]}.
Proof. vm_compute. reflexivity. Qed.

(** The ordered token sequence behind that multiset. *)
Lemma default_bigrams_of_AATTATAT_ordered :
  _ordered_tokens
    <$> new_tokenize (Int 2) "$#" (Int 0) ScalerNone "AATTATAT"
  = Ok ["$A"; "AA"; "AT"; "TT"; "TA"; "AT"; "TA"; "AT"; "T#"].
Proof. vm_compute. reflexivity. Qed.

(** ** The empty string *)

Lemma tokenize_empty_string (self : QGrams) :
  ∃ self', tokenize "" self = Ok self'
           ∧ _ordered_tokens self' = [] ∧ _tokens self' = ∅.
Proof.
  destruct (tokenize_all_guarded "" self) as (self' & H1 & H2 & H3 & _).
  - intros q _. unfold Py.len. simpl. lia.
  - eauto.
Qed.

(** The claim of C3 fails: the default tokenizer does not turn the empty
    string into the single gram [$#]. *)
Lemma C3_empty_string_counterexample :
  _ordered_tokens <$> new_tokenize (Int 2) "$#" (Int 0) ScalerNone ""
  ≠ Ok ["$#"].
Proof. vm_compute. discriminate. Qed.

(** C3, amended: tokenizing the empty string yields no gram at all, for
    every tokenizer (every q, skip, boundary symbols and scaler): the
    ordered token sequence and the multiset are empty, because an input
    shorter than [q_i] is skipped before any padding is added. *)
Theorem C3_empty_string_no_grams (self : QGrams) :
  ∃ self', tokenize "" self = Ok self'
           ∧ _ordered_tokens self' = [] ∧ _tokens self' = ∅.
Proof. apply tokenize_empty_string. Qed.

(** ** Zero and negative q-gram lengths *)

(** The claim of C4 fails for negative lengths: [QGrams(qval=-1)] is
    constructed without an error, and its [tokenize] returns an empty
    token sequence. *)
Lemma C4_negative_qval_counterexample :
  (¬ ∃ e, QGrams__init__ (Int (-1)) "$#" (Int 0) ScalerNone = Raise e)
  ∧ _ordered_tokens
      <$> new_tokenize (Int (-1)) "$#" (Int 0) ScalerNone "NELSON"
    = Ok [].
Proof.
  split; [|vm_compute; reflexivity].
  intros [e He]. vm_compute in He. discriminate.
Qed.

(** C4, amended: a q-gram length of zero raises [ValueError] in the
    constructor; a negative length is accepted by the constructor, and
    [tokenize] then returns normally with no token and an empty multiset
    for every string. *)
Theorem C4_zero_raises_negative_is_empty
    (q : Z) (start_stop : string) (skip : int_or_iterable)
    (scaler : scaler_t) :
  q ≤ 0 →
  match QGrams__init__ (Int q) start_stop skip scaler with
  | inl e =>
      q = 0 ∧ e = ValueError "Use WhitespaceTokenizer instead of qval=0."
  | inr self =>
      q < 0
      ∧ ∀ s, ∃ self', tokenize s self = Ok self'
                      ∧ _ordered_tokens self' = [] ∧ _tokens self' = ∅
  end.
Proof.
  intros Hq. destruct q as [|q|q]; [done|lia|].
  cbn [QGrams__init__]. split; [lia|]. intros s.
  match goal with
  | |- ∃ self', tokenize s ?self = _ ∧ _ =>
      destruct (tokenize_all_guarded s self) as (self' & H1 & H2 & H3 & _)
  end.
  - cbn. intros q' Hq'. apply list_elem_of_singleton in Hq'. lia.
  - eauto.
Qed.

Lemma C4_zero_raises_negative_is_empty_witness :
  -1 ≤ 0
  ∧ match QGrams__init__ (Int (-1)) "$#" (Int 0) ScalerNone with
    | inl e =>
        -1 = 0 ∧ e = ValueError "Use WhitespaceTokenizer instead of qval=0."
    | inr self =>
        -1 < 0
        ∧ ∀ s, ∃ self', tokenize s self = Ok self'
                        ∧ _ordered_tokens self' = [] ∧ _tokens self' = ∅
    end.
Proof.
  split; [lia|].
  apply (C4_zero_raises_negative_is_empty (-1) "$#" (Int 0) ScalerNone).
  lia.
Defined.

(** ** Strings and slices *)

Section strings.

Implicit Types (s t : string) (c : ascii).

Lemma append_cons c s t : String c s +:+ t = String c (s +:+ t).
Proof. reflexivity. Qed.

Lemma length_append s t :
  String.length (s +:+ t) = (String.length s + String.length t)%nat.
Proof.
  induction s as [|c s IH]; [done|].
  rewrite append_cons. simpl. by rewrite IH.
Qed.

Lemma len_append s t : Py.len (s +:+ t) = Py.len s + Py.len t.
Proof. unfold Py.len. rewrite length_append. lia. Qed.

Lemma len_nonneg s : 0 ≤ Py.len s.
Proof. unfold Py.len. lia. Qed.

Lemma length_repeat c n : String.length (Py.repeat (String c "") n) = n.
Proof.
  induction n as [|n IH]; [done|].
  cbn [Py.repeat]. rewrite length_append, IH. done.
Qed.

Lemma len_mul c n : Py.len (Py.mul (String c "") n) = Z.max 0 n.
Proof. unfold Py.len, Py.mul. rewrite length_repeat. lia. Qed.

(** The padded string is the input plus [q - 1] symbols on each side,
    or the input itself without boundary symbols. *)
Lemma len_padded start_stop s q :
  Py.len (padded start_stop s q)
  = if decide (start_stop = "") then Py.len s
    else Py.len s + 2 * Z.max 0 (q - 1).
Proof.
  destruct start_stop as [|c rest]; simpl; [done|].
  rewrite !len_append, !len_mul. lia.
Qed.

Lemma len_padded_ge start_stop s q : Py.len s ≤ Py.len (padded start_stop s q).
Proof. rewrite len_padded. case_decide; lia. Qed.

Lemma get_is_Some s (n : nat) :
  (n < String.length s)%nat → is_Some (String.get n s).
Proof.
  revert n. induction s as [|c s IH]; intros n Hn; simpl in *; [lia|].
  destruct n as [|n]; [by eexists|]. apply IH. lia.
Qed.

(** Inside the string, [s[i]] is one character. *)
Lemma getitem_in_range s i :
  0 ≤ i < Py.len s →
  ∃ c, String.get (Z.to_nat i) s = Some c ∧ Py.getitem s i = String c "".
Proof.
  intros Hi. destruct (get_is_Some s (Z.to_nat i)) as [c Hc].
  - unfold Py.len in Hi. lia.
  - exists c. unfold Py.getitem. by rewrite Hc.
Qed.

(** Joining characters picked at in-range positions gives as many
    characters as positions, each the one picked. *)
Lemma length_join_getitem s (idx : list Z) :
  Forall (λ j, 0 ≤ j < Py.len s) idx →
  String.length (Py.join (Py.getitem s <$> idx)) = length idx.
Proof.
  induction 1 as [|j idx Hj _ IH]; [done|].
  destruct (getitem_in_range s j Hj) as (c & _ & Hc).
  cbn [fmap list_fmap Py.join]. rewrite Hc, append_cons.
  cbn [String.length length]. f_equal. exact IH.
Qed.

Lemma get_join_getitem s (idx : list Z) (k : nat) j :
  Forall (λ j, 0 ≤ j < Py.len s) idx →
  idx !! k = Some j →
  String.get k (Py.join (Py.getitem s <$> idx)) = String.get (Z.to_nat j) s.
Proof.
  intros Hall. revert k. induction Hall as [|j' idx Hj _ IH]; intros k Hk.
  - done.
  - destruct (getitem_in_range s j' Hj) as (c & Hget & Hc).
    cbn [fmap list_fmap Py.join]. rewrite Hc, append_cons.
    destruct k as [|k]; simpl in *.
    + injection Hk as <-. by rewrite Hget.
    + by apply IH.
Qed.

End strings.

(** ** Ranges and comprehensions *)

Lemma length_range n : Z.of_nat (length (Py.range n)) = Z.max 0 n.
Proof. unfold Py.range. rewrite length_fmap, length_seq. lia. Qed.

Lemma lookup_range n (i : nat) :
  Z.of_nat i < n → Py.range n !! i = Some (Z.of_nat i).
Proof.
  intros Hi. unfold Py.range. rewrite list_lookup_fmap.
  rewrite lookup_seq_lt by lia. done.
Qed.

Lemma elem_of_range n i : i ∈ Py.range n ↔ 0 ≤ i < n.
Proof.
  unfold Py.range. rewrite list_elem_of_fmap. split.
  - intros (k & -> & Hk). apply elem_of_seq in Hk. lia.
  - intros Hi. exists (Z.to_nat i). split; [lia|]. apply elem_of_seq. lia.
Qed.

(** A comprehension whose expression never raises is a [map]. *)
Lemma comprehension_Ok {A B} (f : A → result B) (g : A → B) xs :
  (∀ x, x ∈ xs → f x = Ok (g x)) → comprehension f xs = Ok (g <$> xs).
Proof.
  induction xs as [|x xs IH]; intros Hf; simpl; [done|].
  rewrite Hf by left. simpl. rewrite IH; [done|].
  intros y Hy. apply Hf. by right.
Qed.

(** ** Strided slices *)

Lemma slice_positive_step s start stop step :
  0 ≤ start < Py.len s → 1 ≤ step → start < stop →
  Py.slice s start stop step
  = Ok (Py.join (Py.getitem s
                   <$> slice_positions (Py.len s) start stop step)).
Proof.
  intros Hstart Hstep Hstop. unfold Py.slice, slice_positions.
  destruct (Z.eqb_spec step 0) as [?|_]; [lia|].
  assert (Py.adjust (Py.len s) start step = start) as ->.
  { unfold Py.adjust.
    destruct (Z.ltb_spec start 0); [lia|].
    destruct (Z.geb_spec start (Py.len s)); [lia|done]. }
  assert (Py.adjust (Py.len s) stop step = Z.min stop (Py.len s)) as ->.
  { unfold Py.adjust.
    destruct (Z.ltb_spec stop 0); [lia|].
    destruct (Z.geb_spec stop (Py.len s));
      [destruct (Z.ltb_spec step 0)|]; lia. }
  unfold Py.slice_length.
  destruct (Z.ltb_spec step 0); [lia|].
  destruct (Z.ltb_spec start (Z.min stop (Py.len s))); [|lia].
  by rewrite <- list_fmap_compose.
Qed.

Lemma slice_positions_in_range n start stop step :
  0 ≤ start < n → 1 ≤ step →
  Forall (λ j, 0 ≤ j < n) (slice_positions n start stop step).
Proof.
  intros Hstart Hstep. unfold slice_positions.
  apply Forall_fmap, Forall_forall. intros k Hk. simpl.
  apply elem_of_range in Hk.
  assert (step * ((Z.min stop n - start - 1) / step)
          ≤ Z.min stop n - start - 1).
  { apply Z.mul_div_le. lia. }
  nia.
Qed.

(** How many characters a gram cut at [start] gets: [q], unless the
    string ends first. *)
Lemma slice_positions_length n start q step :
  0 ≤ start < n → 1 ≤ step → 1 ≤ q →
  Z.of_nat (length (slice_positions n start (start + q * step) step))
  = Z.min q ((n - start + (step - 1)) / step).
Proof.
  intros Hstart Hstep Hq. unfold slice_positions.
  rewrite length_fmap, length_range.
  assert (0 ≤ (Z.min (start + q * step) n - start - 1) / step)
    by (apply Z.div_pos; nia).
  rewrite Z.max_r by lia.
  replace (n - start + (step - 1)) with (n - start - 1 + 1 * step) by lia.
  rewrite Z.div_add by lia.
  destruct (Z.le_gt_cases (start + q * step) n) as [Hle|Hgt].
  - rewrite (Z.min_l (start + q * step)) by lia.
    replace (start + q * step - start - 1) with (-1 + q * step) by lia.
    rewrite Z.div_add by lia.
    assert (-1 / step = -1) as ->.
    { symmetry. apply (Z.div_unique _ _ _ (step - 1)); lia. }
    assert (q - 1 ≤ (n - start - 1) / step).
    { apply Z.div_le_lower_bound; nia. }
    lia.
  - rewrite (Z.min_r (start + q * step)) by lia.
    assert ((n - start - 1) / step < q).
    { apply Z.div_lt_upper_bound; nia. }
    lia.
Qed.

(** With a positive step no slice raises, and the comprehension of
    lines 162-165 is a [map] over the start indices. *)
Lemma grams_positive_step p q step :
  1 ≤ q → q ≤ Py.len p → 1 ≤ step →
  grams p q step = Ok (gram_at p q step <$> Py.range (Py.len p - (q - 1))).
Proof.
  intros Hq Hlen Hstep. unfold grams. apply comprehension_Ok. intros i Hi.
  apply elem_of_range in Hi. apply slice_positive_step; nia.
Qed.

(** ** One pair of the cross product *)

(** The claim of C2 fails for a positive skip: with [qval=2], [skip=1] and
    no boundary symbols, the last token cut from ['ABCD'] is ['C'], one
    character and not two. *)
Lemma C2_strided_grams_counterexample :
  ¬ ∀ toks,
      _ordered_tokens <$> new_tokenize (Int 2) "" (Int 1) ScalerNone "ABCD"
      = Ok toks →
      Forall (λ tok, Py.len tok = 2) toks.
Proof.
  intros H. specialize (H ["AC"; "BD"; "C"] eq_refl).
  apply Forall_cons_1 in H as [_ H]. apply Forall_cons_1 in H as [_ H].
  apply Forall_cons_1 in H as [H _]. vm_compute in H. discriminate.
Qed.

(** The characters of a gram: as many as positions read, each the
    character of the padded string at its position. *)
Lemma len_gram_at p q step i :
  0 ≤ i < Py.len p → 1 ≤ step → 1 ≤ q →
  Py.len (gram_at p q step i)
  = Z.min q ((Py.len p - i + (step - 1)) / step).
Proof.
  intros Hi Hstep Hq. unfold gram_at, Py.len at 1.
  rewrite length_join_getitem by (by apply slice_positions_in_range).
  by apply slice_positions_length.
Qed.

Lemma get_gram_at p q step i (k : nat) :
  0 ≤ i < Py.len p → 1 ≤ step → 1 ≤ q →
  Z.of_nat k < Py.len (gram_at p q step i) →
  String.get k (gram_at p q step i)
  = String.get (Z.to_nat (i + Z.of_nat k * step)) p.
Proof.
  intros Hi Hstep Hq Hk. unfold gram_at in *.
  apply get_join_getitem; [by apply slice_positions_in_range|].
  unfold Py.len at 1 in Hk.
  rewrite length_join_getitem in Hk by (by apply slice_positions_in_range).
  unfold slice_positions in *.
  rewrite length_fmap in Hk. rewrite list_lookup_fmap, lookup_range; [done|].
  pose proof (length_range
                ((Z.min (i + q * step) (Py.len p) - i - 1) / step + 1)).
  lia.
Qed.

(** A gram whose strided window fits in the padded string has [q]
    characters. *)
Lemma len_gram_at_fits p q step i :
  0 ≤ i < Py.len p → 1 ≤ step → 1 ≤ q →
  i + (q - 1) * step < Py.len p →
  Py.len (gram_at p q step i) = q.
Proof.
  intros Hi Hstep Hq Hfit. rewrite len_gram_at by done.
  apply Z.min_l, Z.div_le_lower_bound; nia.
Qed.

(** C2, amended: for a gram length [q_i >= 1], an input of at least [q_i]
    characters and a skip [skip_i >= 0], one pass of the loop body appends
    one token per start index [i] from 0 to [len(padded) - q_i] inclusive.
    The token at [i] consists of characters of the padded string taken at
    stride [skip_i + 1] starting at [i], at most [q_i] of them, and
    exactly [q_i] of them whenever
    [i + (q_i - 1)(skip_i + 1) < len(padded)], which is the case for every
    token when [skip_i = 0]. *)
Theorem C2_strided_grams (self : QGrams) (qval_i skip_i : Z) :
  1 ≤ qval_i → qval_i ≤ Py.len (_string self) → 0 ≤ skip_i →
  let p := padded (start_stop self) (_string self) qval_i in
  let step := skip_i + 1 in
  ∃ toks self',
    tokenize_body qval_i skip_i self = Ok self'
    ∧ _ordered_tokens self' = _ordered_tokens self ++ toks
    ∧ Z.of_nat (length toks) = Py.len p - qval_i + 1
    ∧ ∀ i : nat, Z.of_nat i ≤ Py.len p - qval_i →
        ∃ tok, toks !! i = Some tok
          ∧ Py.len tok ≤ qval_i
          ∧ (∀ k : nat, Z.of_nat k < Py.len tok →
               String.get k tok
               = String.get (Z.to_nat (Z.of_nat i + Z.of_nat k * step)) p)
          ∧ (Z.of_nat i + (qval_i - 1) * step < Py.len p →
             Py.len tok = qval_i)
          ∧ (skip_i = 0 → Py.len tok = qval_i).
Proof.
  intros Hq Hlen Hskip p step.
  pose proof (len_padded_ge (start_stop self) (_string self) qval_i) as Hp.
  fold p in Hp.
  assert (1 ≤ step) as Hstep by (unfold step; lia).
  exists (gram_at p qval_i step <$> Py.range (Py.len p - (qval_i - 1))).
  eexists. split; [|split; [|split]].
  - unfold tokenize_body. rewrite bool_decide_eq_false_2 by lia.
    fold p. fold step. rewrite grams_positive_step by lia. reflexivity.
  - cbn. by destruct (bool_decide _).
  - rewrite length_fmap, length_range. lia.
  - intros n Hi. set (i := Z.of_nat n) in *.
    assert (0 ≤ i < Py.len p) as Hrange by lia.
    exists (gram_at p qval_i step i). split; [|split; [|split; [|split]]].
    + rewrite list_lookup_fmap, lookup_range by lia. done.
    + rewrite len_gram_at by done. lia.
    + intros k Hk. by apply get_gram_at.
    + by apply len_gram_at_fits.
    + intros ->. apply len_gram_at_fits; try done. unfold step. lia.
Qed.

Lemma C2_strided_grams_witness :
  (1 ≤ 2 ∧ 2 ≤ Py.len "ABCD" ∧ 0 ≤ 1)
  ∧ ∃ toks self',
      tokenize_body 2 1 (mkQGrams (Iterable [2]) "" (Iterable [1])
                                  ScalerNone "ABCD" [] ∅ "")
      = Ok self'
      ∧ _ordered_tokens self' = [] ++ toks
      ∧ Z.of_nat (length toks) = 3.
Proof.
  assert (1 ≤ 2) as H1 by lia.
  assert (2 ≤ Py.len "ABCD") as H2 by (vm_compute; discriminate).
  assert (0 ≤ 1) as H3 by lia.
  split; [done|].
  destruct (C2_strided_grams
              (mkQGrams (Iterable [2]) "" (Iterable [1]) ScalerNone "ABCD"
                        [] ∅ "") 2 1 H1 H2 H3)
    as (toks & self' & Hbody & Htoks & Hlen & _).
  exists toks, self'. done.
Defined.

(** ** What a call of [tokenize] depends on *)

Lemma for_each_rel {A S} (R : S → S → Prop) (xs : list A)
    (body : A → S → result S) x y :
  (∀ a x y, R x y → result_rel R (body a x) (body a y)) →
  R x y → result_rel R (for_each xs body x) (for_each xs body y).
Proof.
  intros Hbody. revert x y. induction xs as [|a xs IH]; intros x y HR.
  - done.
  - simpl. specialize (Hbody a x y HR).
    destruct (body a x) as [e1|x'], (body a y) as [e2|y']; simpl in *;
      try done.
    by apply IH.
Qed.

(** An invariant of the body is an invariant of the loop. *)
Lemma for_each_inv {A S} (P : S → Prop) (xs : list A)
    (body : A → S → result S) x x' :
  (∀ a x x', P x → body a x = Ok x' → P x') →
  P x → for_each xs body x = Ok x' → P x'.
Proof.
  intros Hbody. revert x. induction xs as [|a xs IH]; intros x HP Hrun.
  - injection Hrun as <-. done.
  - simpl in Hrun. destruct (body a x) as [e|x1] eqn:Hx; [done|].
    simpl in Hrun. eapply IH; [|exact Hrun]. eauto.
Qed.

Lemma tokenize_body_agree qval_i skip_i x y :
  agree x y →
  result_rel agree (tokenize_body qval_i skip_i x)
                   (tokenize_body qval_i skip_i y).
Proof.
  intros ((Hq & Hss & Hsk & Hsc) & Hs & Htoks). unfold tokenize_body.
  rewrite <- Hs, <- Hss.
  destruct (bool_decide _); simpl; [done|].
  destruct (grams _ _ _) as [e|toks]; simpl; [done|].
  destruct (bool_decide _), (bool_decide _); cbn; rewrite Htoks; done.
Qed.

Lemma tokenize_body_config qval_i skip_i x x' :
  tokenize_body qval_i skip_i x = Ok x' → same_config x x'.
Proof.
  unfold tokenize_body. destruct (bool_decide _).
  - intros [= <-]. done.
  - destruct (grams _ _ _) as [e|toks]; simpl; [done|].
    intros [= <-]. by destruct (bool_decide _).
Qed.

Lemma same_config_trans x y z :
  same_config x y → same_config y z → same_config x z.
Proof. unfold same_config. intros (?&?&?&?) (?&?&?&?). repeat split; congruence. Qed.

(** [tokenize] keeps the configuration: the candidate lengths and skips
    (as sequences), the boundary symbols and the scaler. *)
Lemma tokenize_config s x x' : tokenize s x = Ok x' → same_config x x'.
Proof.
  unfold tokenize.
  destruct (for_each _ _ _) as [e|x1] eqn:Hloop; simpl; [done|].
  intros [= <-].
  apply (for_each_inv (same_config x)) in Hloop; [done| |done].
  intros q y y' Hy Hrun.
  apply (for_each_inv (same_config x)) in Hrun; [done| |done].
  intros sk z z' Hz Hbody. apply tokenize_body_config in Hbody.
  by eapply same_config_trans.
Qed.

(** The ordered tokens, the multiset and the stored input that a call of
    [tokenize] leaves behind (or the exception it raises) depend on the
    configuration and on the string only. *)
Lemma tokenize_agree s x y :
  same_config x y →
  result_rel (λ x' y', agree x' y' ∧ _tokens x' = _tokens y')
             (tokenize s x) (tokenize s y).
Proof.
  intros (Hq & Hss & Hsk & Hsc). unfold tokenize.
  cbn [qval skip set_skip set_qval set_string set_ordered_tokens
       as_iterable].
  rewrite <- Hq, <- Hsk.
  match goal with
  | |- result_rel _ (mbind _ (for_each ?xs ?body ?a))
                    (mbind _ (for_each _ _ ?b)) =>
      pose proof (for_each_rel agree xs body a b) as Hloop
  end.
  lapply Hloop; clear Hloop.
  - intros Hloop. lapply Hloop; clear Hloop.
    + intros Hloop.
      destruct (for_each _ _ _) as [e1|x1], (for_each _ _ _) as [e2|y1];
        simpl in *; try done.
      destruct Hloop as ((Hq1 & Hss1 & Hsk1 & Hsc1) & Hs1 & Ht1).
      unfold _Tokenizer_tokenize. cbn.
      rewrite Hsc1, Ht1. repeat split; done.
    + repeat split; cbn; done.
  - intros q x0 y0 H0. apply for_each_rel; [|done].
    intros sk. apply tokenize_body_agree.
Qed.

(** A second call on the same string leaves the same tokens as the
    first. *)
Lemma tokenize_twice s x x1 :
  tokenize s x = Ok x1 →
  ∃ x2, tokenize s x1 = Ok x2
        ∧ _ordered_tokens x2 = _ordered_tokens x1
        ∧ _tokens x2 = _tokens x1.
Proof.
  intros H1. pose proof (tokenize_agree s x x1 (tokenize_config _ _ _ H1)) as H.
  rewrite H1 in H. destruct (tokenize s x1) as [e|x2]; simpl in H; [done|].
  destruct H as ((_ & _ & Ht) & Hc). eauto.
Qed.

(** The part of C6 that holds: after [tokenize(s1)], a call
    [tokenize(s2)] leaves the ordered tokens, the multiset and the stored
    input of a fresh call [tokenize(s2)]. *)
Lemma tokenize_overwrites_tokens s1 s2 x x1 :
  tokenize s1 x = Ok x1 →
  result_rel (λ a b, _ordered_tokens a = _ordered_tokens b
                     ∧ _tokens a = _tokens b ∧ _string a = _string b)
             (tokenize s2 x1) (tokenize s2 x).
Proof.
  intros H1. apply tokenize_config in H1.
  assert (same_config x1 x) as Hc
    by (destruct H1 as (?&?&?&?); repeat split; done).
  pose proof (tokenize_agree s2 x1 x Hc) as H.
  destruct (tokenize s2 x1) as [?|a], (tokenize s2 x) as [?|b];
    simpl in *; try done.
  destruct H as ((_ & ? & ?) & ?). done.
Qed.

(** C6: the saved padded string is not rebuilt by [tokenize]. After
    [tokenize('AAAAAA')], the call [tokenize('AB')] on the same default
    tokenizer leaves [_string_ss = '$AAAAAA#'], the padded form of the
    earlier input, where a fresh tokenizer has ['$AB#'] after
    [tokenize('AB')]. *)
Theorem C6_padded_string_survives_tokenize :
  _string_ss <$> (self ← QGrams_default;
                  self ← tokenize "AAAAAA" self;
                  tokenize "AB" self)
  = Ok "$AAAAAA#"
  ∧ _string_ss <$> (self ← QGrams_default; tokenize "AB" self)
    = Ok "$AB#".
Proof. split; vm_compute; reflexivity. Qed.

(** ** Sums over tokens *)

Lemma sum_app xs ys : Py.sum (xs ++ ys) = Py.sum xs + Py.sum ys.
Proof.
  unfold Py.sum. induction xs as [|x xs IH]; simpl; [done|].
  by rewrite IH, Z.add_assoc.
Qed.

Lemma sum_permutation xs ys : xs ≡ₚ ys → Py.sum xs = Py.sum ys.
Proof.
  unfold Py.sum.
  induction 1 as [|x xs ys _ IH|x y xs|xs ys zs _ IH1 _ IH2]; simpl; lia.
Qed.

Lemma sum_fmap_add {A} (f g : A → Z) l :
  Py.sum (f <$> l) + Py.sum (g <$> l) = Py.sum ((λ x, f x + g x) <$> l).
Proof.
  unfold Py.sum. induction l as [|x l IH]; csimpl; [done|].
  rewrite <- IH. lia.
Qed.

Lemma sum_fmap_zero {A} (f : A → Z) l :
  (∀ x, x ∈ l → f x = 0) → Py.sum (f <$> l) = 0.
Proof.
  induction l as [|x l IH]; intros Hf; [done|].
  unfold Py.sum in *. csimpl. rewrite (Hf x) by left.
  rewrite IH; [done|]. intros y Hy. apply Hf. by right.
Qed.

Lemma sum_fmap_nonneg {A} (f : A → Z) l :
  (∀ x, 0 ≤ f x) → 0 ≤ Py.sum (f <$> l).
Proof.
  intros Hf. induction l as [|x l IH]; unfold Py.sum in *; csimpl; [done|].
  specialize (Hf x). lia.
Qed.

Lemma sum_fmap_pos {A} (f : A → Z) l x :
  (∀ x, 0 ≤ f x) → x ∈ l → 0 < f x → 0 < Py.sum (f <$> l).
Proof.
  intros Hf Hx Hpos. induction Hx as [x l|x y l _ IH].
  - pose proof (sum_fmap_nonneg f l Hf). unfold Py.sum in *. csimpl. lia.
  - specialize (Hf y). unfold Py.sum in *. csimpl. lia.
Qed.

Lemma count_not_in_dom (m : gmap string Z) tok : tok ∉ dom m → count m tok = 0.
Proof. intros H. apply not_elem_of_dom in H. unfold count. by rewrite H. Qed.

(** Summing the counts of a multiset over its own keys gives its total. *)
Lemma sum_count_dom (m : gmap string Z) :
  Py.sum (count m <$> elements (dom m)) = total m.
Proof.
  unfold total.
  assert (elements (dom m) ≡ₚ (map_to_list m).*1) as Hperm.
  { apply NoDup_Permutation.
    - apply NoDup_elements.
    - apply NoDup_fst_map_to_list.
    - intros k. rewrite elem_of_elements, elem_of_dom, list_elem_of_fmap.
      split.
      + intros [v Hv]. exists (k, v). split; [done|].
        by apply elem_of_map_to_list.
      + intros ([k' v] & -> & Hkv). apply elem_of_map_to_list in Hkv.
        by eexists. }
  rewrite (sum_permutation _ _ (fmap_Permutation (count m) _ _ Hperm)).
  rewrite <- list_fmap_compose. f_equal.
  apply Forall_fmap_ext, Forall_forall. intros [k v] Hkv.
  apply elem_of_map_to_list in Hkv. simpl. unfold count. by rewrite Hkv.
Qed.

(** The same over any set of tokens that covers the keys. *)
Lemma sum_count_elements (m : gmap string Z) (X : gset string) :
  dom m ⊆ X → Py.sum (count m <$> elements X) = total m.
Proof.
  intros Hsub.
  assert (elements X ≡ₚ elements (dom m) ++ elements (X ∖ dom m)) as Hperm.
  { rewrite (union_difference_L _ _ Hsub) at 1.
    apply elements_disj_union, disjoint_difference_r1. done. }
  rewrite (sum_permutation _ _ (fmap_Permutation (count m) _ _ Hperm)).
  rewrite fmap_app, sum_app, sum_count_dom.
  rewrite sum_fmap_zero; [lia|].
  intros k Hk. apply elem_of_elements, elem_of_difference in Hk as [_ Hk].
  by apply count_not_in_dom.
Qed.

(** ** Mass conservation *)

(** C8: under crisp semantics the intersection cardinality plus the
    src-only cardinality is the total count of the src multiset, and the
    intersection cardinality plus the tar-only cardinality is the total
    count of the tar multiset, for every pair of multisets the engine
    holds. *)
Theorem C8_mass_conservation (self : _TokenDistance) :
  intersection_card self + src_only_card self = total (_src_tokens self)
  ∧ intersection_card self + tar_only_card self = total (_tar_tokens self).
Proof.
  unfold intersection_card, src_only_card, tar_only_card.
  rewrite !sum_fmap_add. split.
  - rewrite <- (sum_count_elements (_src_tokens self)
                 (dom (_src_tokens self) ∪ dom (_tar_tokens self)))
      by set_solver.
    unfold observed. f_equal. apply list_fmap_ext. intros _ tok _.
    unfold positive_part.
    destruct (Z.ltb_spec 0 (count (_src_tokens self) tok
                            - count (_tar_tokens self) tok)); lia.
  - rewrite <- (sum_count_elements (_tar_tokens self)
                 (dom (_src_tokens self) ∪ dom (_tar_tokens self)))
      by set_solver.
    unfold observed. f_equal. apply list_fmap_ext. intros _ tok _.
    unfold positive_part.
    destruct (Z.ltb_spec 0 (count (_tar_tokens self) tok
                            - count (_src_tokens self) tok)); lia.
Qed.

(** The same after the engine has tokenized two strings. *)
Lemma mass_conservation_of_strings (self base : _TokenDistance) src tar :
  _tokenize src tar self = Ok base →
  intersection_card base + src_only_card base = total (_src_tokens base)
  ∧ intersection_card base + tar_only_card base = total (_tar_tokens base).
Proof. intros _. apply C8_mass_conservation. Qed.

(** ** Two empty strings *)

Lemma _tokenize_empty_strings (self : _TokenDistance) :
  ∃ base, _tokenize "" "" self = Ok base
          ∧ _src_tokens base = ∅ ∧ _tar_tokens base = ∅
          ∧ alphabet base = alphabet self.
Proof.
  unfold _tokenize.
  destruct (tokenize_empty_string (tokenizer self))
    as (tk1 & -> & _ & Htk1).
  destruct (tokenize_empty_string tk1) as (tk2 & H2 & _ & Htk2).
  change (∃ base,
    (tk ← tokenize "" tk1;
     Ok (mkTokenDistance tk (alphabet self) (_tokens tk1) (_tokens tk)))
    = Ok base ∧ _src_tokens base = ∅ ∧ _tar_tokens base = ∅
    ∧ alphabet base = alphabet self).
  rewrite H2. eexists. split; [reflexivity|]. done.
Qed.

Lemma observed_empty (base : _TokenDistance) :
  _src_tokens base = ∅ → _tar_tokens base = ∅ → observed base = [].
Proof.
  intros Hs Ht. unfold observed. rewrite Hs, Ht, dom_empty_L, union_empty_l_L.
  apply elements_empty.
Qed.

(** C5: two empty strings give a = b = c = 0, and the three formulas then
    divide by zero: [WeightedJaccard.sim], [KuhnsVIII.sim] and
    [QuantitativeJaccard.sim] raise [ZeroDivisionError] on [('', '')]
    instead of returning 1.0, for every tokenizer, alphabet and weight. *)
Theorem C5_empty_strings_divide_by_zero (self : _TokenDistance) (w : Z) :
  (∃ base, _tokenize "" "" self = Ok base
           ∧ intersection_card base = 0
           ∧ src_only_card base = 0
           ∧ tar_only_card base = 0)
  ∧ WeightedJaccard_sim (mkWeightedJaccard w self) "" ""
    = Raise ZeroDivisionError
  ∧ KuhnsVIII_sim self "" "" = Raise ZeroDivisionError
  ∧ QuantitativeJaccard_sim self "" "" = Raise ZeroDivisionError.
Proof.
  destruct (_tokenize_empty_strings self) as (base & Hbase & Hs & Ht & _).
  pose proof (observed_empty base Hs Ht) as Hobs.
  assert (intersection_card base = 0) as Ha
    by (unfold intersection_card; by rewrite Hobs).
  assert (src_only_card base = 0) as Hb
    by (unfold src_only_card; by rewrite Hobs).
  assert (tar_only_card base = 0) as Hc
    by (unfold tar_only_card; by rewrite Hobs).
  split; [by eauto|]. split; [|split].
  - unfold WeightedJaccard_sim. cbn [wj_base weight]. rewrite Hbase. cbn.
    rewrite Ha, Hb, Hc, Z.mul_0_r. reflexivity.
  - unfold KuhnsVIII_sim. rewrite Hbase. cbn. rewrite Ha, Hb, Hc. cbn.
    destruct (Py.truediv _ _) as [e|q] eqn:Hq.
    + unfold Py.truediv in Hq. destruct (Qeq_bool _ _); [|done].
      by injection Hq as <-.
    + reflexivity.
  - unfold QuantitativeJaccard_sim. rewrite Hbase. cbn.
    unfold _total. rewrite Hs, Ht.
    replace (union_with (λ x y : Z, Some (x + y)) (∅ : gmap string Z) ∅)
      with (∅ : gmap string Z) by (symmetry; apply (left_id_L ∅ _)).
    rewrite map_filter_empty, dom_empty_L, elements_empty. reflexivity.
Qed.

(** The instances the formulas build by default show the same. *)
Lemma default_instances_on_empty_strings :
  (self ← WeightedJaccard__init__ None 3; WeightedJaccard_sim self "" "")
  = Raise ZeroDivisionError
  ∧ (self ← _TokenDistance__init__ AlphabetNone None; KuhnsVIII_sim self "" "")
    = Raise ZeroDivisionError
  ∧ (self ← _TokenDistance__init__ AlphabetNone None;
     QuantitativeJaccard_sim self "" "")
    = Raise ZeroDivisionError.
Proof. repeat split; vm_compute; reflexivity. Qed.

(** ** Weight one *)

(** C7: with weight 1 under crisp intersection, [WeightedJaccard.sim] is
    plain Jaccard similarity a / (a + b + c), for every tokenizer and
    every pair of strings (with the same exception where Jaccard
    raises one). *)
Theorem C7_weight_one_is_Jaccard (base : _TokenDistance) (src tar : string) :
  WeightedJaccard_sim (mkWeightedJaccard 1 base) src tar
  = Jaccard_sim base src tar.
Proof.
  unfold WeightedJaccard_sim, Jaccard_sim. cbn [wj_base weight].
  destruct (_tokenize src tar base) as [e|base']; cbn; [done|].
  by rewrite Z.mul_1_l.
Qed.

(** ** Asymmetry of the default Generalized Fleiss *)

(** C9: [GeneralizedFleiss()] is not symmetric: on ['AB'] and ['ABC'] it
    returns -2/7 one way and -4/7 the other way. *)
Theorem C9_default_GeneralizedFleiss_asymmetric
    (other_means : string → option (list Q → result Q)) :
  ∃ (src tar : string) (x y : Q),
    (self ← GeneralizedFleiss_default;
     GeneralizedFleiss_sim other_means self src tar) = Ok x
    ∧ (self ← GeneralizedFleiss_default;
       GeneralizedFleiss_sim other_means self tar src) = Ok y
    ∧ ¬ (x == y)%Q.
Proof.
  exists "AB", "ABC", (-2 # 7)%Q, (-4 # 7)%Q.
  split; [vm_compute; reflexivity|]. split; [vm_compute; reflexivity|].
  intros H. vm_compute in H. discriminate.
Qed.

(** ** Counting tokens *)

Lemma Counter_snoc toks tok :
  Counter (toks ++ [tok])
  = <[tok := count (Counter toks) tok + 1]> (Counter toks).
Proof. unfold Counter. by rewrite foldl_app. Qed.

(** Every token a [Counter] holds was counted at least once. *)
Lemma Counter_ge_1 toks tok v : Counter toks !! tok = Some v → 1 ≤ v.
Proof.
  revert tok v. induction toks as [|x toks IH] using rev_ind; intros tok v.
  - unfold Counter. simpl. by rewrite lookup_empty.
  - rewrite Counter_snoc, lookup_insert. case_decide as Heq.
    + intros [= <-]. unfold count.
      destruct (Counter toks !! x) as [w|] eqn:Hw; simpl; [|lia].
      apply IH in Hw. lia.
    + apply IH.
Qed.

Lemma Counter_nonempty toks :
  toks ≠ [] → ∃ tok v, Counter toks !! tok = Some v.
Proof.
  destruct toks as [|x toks _] using rev_ind; [done|]. intros _.
  exists x. eexists. rewrite Counter_snoc. apply lookup_insert_eq.
Qed.

(** Without a callable scaler, a non-empty token sequence leaves a
    multiset with a key, and every count in it is at least 1. *)
Lemma scaled_Counter_ge_1 scaler toks tok v :
  (∀ f, scaler ≠ ScalerCallable f) →
  scale scaler (Counter toks) !! tok = Some v → 1 ≤ v.
Proof.
  intros Hsc. destruct scaler as [| |f]; simpl.
  - apply Counter_ge_1.
  - rewrite lookup_fmap. destruct (Counter toks !! tok) as [w|] eqn:Hw;
      simpl; [|done].
    intros [= <-]. destruct (0 <? w); [lia|]. by eapply Counter_ge_1.
  - by destruct (Hsc f).
Qed.

Lemma scaled_Counter_nonempty scaler toks :
  toks ≠ [] → ∃ tok v, scale scaler (Counter toks) !! tok = Some v.
Proof.
  intros Hne. destruct (Counter_nonempty toks Hne) as (tok & v & Hv).
  exists tok. destruct scaler; simpl; rewrite ?lookup_fmap, ?Hv; by eexists.
Qed.

(** ** A string against itself *)

Lemma truediv_self (p : Z) :
  0 < p → Py.truediv (inject_Z p) (inject_Z p) = Ok 1%Q.
Proof.
  intros Hp. unfold Py.truediv.
  assert (¬ (inject_Z p == 0)%Q) as Hne.
  { unfold Qeq, inject_Z. simpl. lia. }
  destruct (Qeq_bool (inject_Z p) 0) eqn:Heq.
  - by apply Qeq_bool_eq in Heq.
  - f_equal. change 1%Q with (Qred 1). apply Qred_complete.
    unfold Qdiv. by apply Qmult_inv_r.
Qed.

(** The multiset [tokenize] leaves is the scaled count of the ordered
    tokens it leaves. *)
Lemma tokenize_tokens s x x' :
  tokenize s x = Ok x' →
  _tokens x' = scale (_scaler x) (Counter (_ordered_tokens x')).
Proof.
  intros Hx. pose proof (tokenize_config _ _ _ Hx) as (_ & _ & _ & ->).
  unfold tokenize in Hx.
  destruct (for_each _ _ _) as [e|y]; simpl in Hx; [done|].
  injection Hx as <-. reflexivity.
Qed.

(** The sum of squared counts of a multiset with a key and counts of at
    least 1, over the keys of the multiset sum with itself, is
    positive. *)
Lemma sum_squares_pos (base : _TokenDistance) (m : gmap string Z) tok v :
  _src_tokens base = m → _tar_tokens base = m →
  m !! tok = Some v → 1 ≤ v →
  0 < Py.sum ((λ tok, count m tok * count m tok)
                <$> elements (dom (_total base))).
Proof.
  intros Hs Ht Hv Hv1. apply (sum_fmap_pos _ _ tok).
  - intros x. nia.
  - apply elem_of_elements, elem_of_dom. exists (v + v).
    unfold _total. rewrite Hs, Ht.
    apply map_lookup_filter_Some. split; [|simpl; lia].
    rewrite lookup_union_with, Hv. done.
  - unfold count. rewrite Hv. simpl. nia.
Qed.

(** C10: for every tokenizer without a callable scaler and every string
    whose tokenization is non-empty, [QuantitativeJaccard.sim(s, s)]
    returns exactly 1. *)
Theorem C10_QuantitativeJaccard_sim_self (self : _TokenDistance)
    (s : string) (tk : QGrams) :
  (∀ f, _scaler (tokenizer self) ≠ ScalerCallable f) →
  tokenize s (tokenizer self) = Ok tk →
  _ordered_tokens tk ≠ [] →
  QuantitativeJaccard_sim self s s = Ok 1%Q.
Proof.
  intros Hsc Htk Hne.
  destruct (tokenize_twice _ _ _ Htk) as (tk2 & Htk2 & _ & Htoks).
  unfold QuantitativeJaccard_sim, _tokenize. rewrite Htk.
  change (mbind ?f (Ok ?x)) with (f x). cbv beta. rewrite Htk2.
  change (mbind ?f (Ok ?x)) with (f x). cbv beta.
  change (mbind ?f (Ok ?x)) with (f x). cbv beta.
  cbn [_src_tokens _tar_tokens]. rewrite Htoks.
  set (m := _tokens tk).
  set (alph := elements (dom (_total _))).
  set (product := Py.sum ((λ tok, count m tok * count m tok) <$> alph)).
  replace (product + product - product) with product by lia.
  apply truediv_self.
  pose proof (tokenize_tokens _ _ _ Htk) as Hm. fold m in Hm.
  destruct (scaled_Counter_nonempty (_scaler (tokenizer self)) _ Hne)
    as (tok & v & Hv).
  rewrite <- Hm in Hv.
  assert (1 ≤ v) as Hv1.
  { eapply scaled_Counter_ge_1; [exact Hsc|]. rewrite <- Hm. exact Hv. }
  by eapply sum_squares_pos.
Qed.

(** Under the default bigram tokenizer every string of length at least 2
    has a non-empty tokenization. *)
Lemma default_tokenization_nonempty (s : string) :
  2 ≤ Py.len s →
  ∃ self tk, QGrams_default = Ok self ∧ tokenize s self = Ok tk
             ∧ _ordered_tokens tk ≠ [].
Proof.
  intros Hlen.
  exists (mkQGrams (Int 2) "$#" (Int 0) ScalerNone "" [] ∅ "").
  unfold tokenize.
  cbn [qval skip set_skip set_qval set_string set_ordered_tokens
       as_iterable for_each].
  unfold tokenize_body.
  cbn [_string start_stop _string_ss _ordered_tokens set_skip set_qval
       set_string set_ordered_tokens].
  rewrite bool_decide_eq_false_2 by lia.
  pose proof (len_padded_ge "$#" s 2) as Hp.
  rewrite grams_positive_step by lia.
  set (p := padded "$#" s 2) in *.
  eexists. split; [reflexivity|]. split; [reflexivity|].
  intros H.
  assert (gram_at p 2 (0 + 1) <$> Py.range (Py.len p - (2 - 1)) = []) as H'
    by (destruct (bool_decide _); exact H).
  apply fmap_nil_inv, (f_equal length) in H'.
  pose proof (length_range (Py.len p - (2 - 1))) as HL.
  rewrite H' in HL. simpl in HL. lia.
Qed.

Lemma C10_QuantitativeJaccard_sim_self_witness :
  ∃ self tk,
    ((∀ f, _scaler (tokenizer self) ≠ ScalerCallable f)
     ∧ tokenize "AB" (tokenizer self) = Ok tk
     ∧ _ordered_tokens tk ≠ [])
    ∧ QuantitativeJaccard_sim self "AB" "AB" = Ok 1%Q.
Proof.
  pose (self := mkTokenDistance
                  (mkQGrams (Int 2) "$#" (Int 0) ScalerNone "" [] ∅ "")
                  AlphabetNone ∅ ∅).
  pose (tk := mkQGrams (Iterable [2]) "$#" (Iterable [0]) ScalerNone "AB"
                       ["$A"; "AB"; "B#"]
                       {[ "$A" := 1; "AB" := 1; "B#" := 1 ]} "$AB#").
  assert (∀ f, _scaler (tokenizer self) ≠ ScalerCallable f) as H1 by done.
  assert (tokenize "AB" (tokenizer self) = Ok tk) as H2
    by (vm_compute; reflexivity).
  assert (_ordered_tokens tk ≠ []) as H3 by done.
  exists self, tk. split; [done|].
  exact (C10_QuantitativeJaccard_sim_self self "AB" tk H1 H2 H3).
Defined.


(** * Further properties of the tokenizer *)

(** ** When [tokenize] raises *)

Lemma slice_nonzero_step s start stop step :
  step ≠ 0 → ∃ r, Py.slice s start stop step = Ok r.
Proof.
  intros Hstep. unfold Py.slice.
  destruct (Z.eqb_spec step 0); [done|]. by eexists.
Qed.

Lemma slice_zero_step s start stop :
  Py.slice s start stop 0 = Raise (ValueError "slice step cannot be zero").
Proof. reflexivity. Qed.

Lemma comprehension_total {A B} (f : A → result B) xs :
  (∀ x, x ∈ xs → ∃ y, f x = Ok y) → ∃ ys, comprehension f xs = Ok ys.
Proof.
  induction xs as [|x xs IH]; intros Hf; simpl; [by eexists|].
  destruct (Hf x) as [y ->]; [by left|].
  destruct IH as [ys ->]; [intros z Hz; apply Hf; by right|].
  by eexists.
Qed.

Lemma for_each_total {A S} (xs : list A) (body : A → S → result S) st :
  (∀ x st, x ∈ xs → ∃ st', body x st = Ok st') →
  ∃ st', for_each xs body st = Ok st'.
Proof.
  revert st. induction xs as [|x xs IH]; intros st Hbody; simpl;
    [by eexists|].
  destruct (Hbody x st) as [st1 ->]; [by left|]. simpl.
  apply IH. intros y st2 Hy. apply Hbody. by right.
Qed.

Lemma tokenize_body_total qval_i skip_i self :
  skip_i ≠ -1 → ∃ self', tokenize_body qval_i skip_i self = Ok self'.
Proof.
  intros Hskip. unfold tokenize_body.
  destruct (bool_decide _); [by eexists|].
  destruct (comprehension_total
              (λ i, Py.slice
                      (padded (start_stop self) (_string self) qval_i) i
                      (i + qval_i * (skip_i + 1)) (skip_i + 1))
              (Py.range
                 (Py.len (padded (start_stop self) (_string self) qval_i)
                  - (qval_i - 1)))) as [toks Htoks].
  { intros i _. apply slice_nonzero_step. lia. }
  unfold grams. rewrite Htoks. by eexists.
Qed.

(** X1: [tokenize] returns normally, for every string and every
    configuration none of whose skips is -1: the only step the slice of
    line 163 rejects is 0. *)
Theorem tokenize_returns (s : string) (self : QGrams) :
  (∀ sk, sk ∈ as_iterable (skip self) → sk ≠ -1) →
  ∃ self', tokenize s self = Ok self'.
Proof.
  intros Hskip. unfold tokenize.
  cbn [qval skip set_skip set_qval set_string set_ordered_tokens
       as_iterable].
  match goal with
  | |- ∃ self', mbind _ (for_each ?xs ?body ?st) = _ =>
      destruct (for_each_total xs body st) as [st' ->]
  end.
  - intros q st _. apply for_each_total. intros sk st' Hsk.
    apply tokenize_body_total. by apply Hskip.
  - by eexists.
Qed.

Lemma tokenize_returns_witness :
  (∀ sk, sk ∈ as_iterable (skip (mkQGrams (Int 2) "$#" (Int 0) ScalerNone
                                          "" [] ∅ "")) → sk ≠ -1)
  ∧ ∃ self', tokenize "NELSON" (mkQGrams (Int 2) "$#" (Int 0) ScalerNone
                                         "" [] ∅ "") = Ok self'.
Proof.
  assert (∀ sk, sk ∈ as_iterable (skip (mkQGrams (Int 2) "$#" (Int 0)
                                          ScalerNone "" [] ∅ ""))
                → sk ≠ -1) as H.
  { intros sk Hsk. cbn in Hsk. apply list_elem_of_singleton in Hsk. lia. }
  split; [exact H|].
  exact (tokenize_returns "NELSON"
           (mkQGrams (Int 2) "$#" (Int 0) ScalerNone "" [] ∅ "") H).
Defined.

Lemma comprehension_raises {A B} (f : A → result B) (P : exn → Prop) xs e :
  (∀ x e, f x = Raise e → P e) → comprehension f xs = Raise e → P e.
Proof.
  intros Hf. induction xs as [|x xs IH]; simpl; [done|].
  destruct (f x) as [e1|y] eqn:Hx; simpl.
  - intros [= <-]. by eapply Hf.
  - destruct (comprehension f xs) as [e2|ys]; simpl; [|done].
    intros [= <-]. by apply IH.
Qed.

(** The exception of a zero step is the only one [tokenize] raises. *)
Lemma tokenize_body_raises qval_i skip_i self e :
  tokenize_body qval_i skip_i self = Raise e →
  e = ValueError "slice step cannot be zero".
Proof.
  unfold tokenize_body. destruct (bool_decide _); [done|].
  destruct (grams _ _ _) as [e'|toks] eqn:Hx; simpl; [|done].
  intros [= <-]. unfold grams in Hx.
  eapply (comprehension_raises _ (λ e, e = ValueError _)); [|exact Hx].
  intros i e. unfold Py.slice. cbv beta. by destruct (_ =? 0); intros [= <-].
Qed.

Lemma for_each_raises {A S} (xs : list A) (body : A → S → result S)
    (P : exn → Prop) st e :
  (∀ x st e, body x st = Raise e → P e) →
  for_each xs body st = Raise e → P e.
Proof.
  intros Hbody. revert st. induction xs as [|x xs IH]; intros st; simpl;
    [done|].
  destruct (body x st) as [e1|st1] eqn:Hx; simpl.
  - intros [= <-]. by eapply Hbody.
  - apply IH.
Qed.

Lemma tokenize_raises s self e :
  tokenize s self = Raise e → e = ValueError "slice step cannot be zero".
Proof.
  unfold tokenize.
  destruct (for_each _ _ _) as [e1|st] eqn:Hloop; simpl; [|done].
  intros [= <-].
  apply (for_each_raises _ _
           (λ e, e = ValueError "slice step cannot be zero")) in Hloop;
    [done|].
  intros q st e He.
  apply (for_each_raises _ _
           (λ e, e = ValueError "slice step cannot be zero")) in He;
    [done|].
  intros sk st' e'. apply tokenize_body_raises.
Qed.

Lemma range_pos n : 1 ≤ n → ∃ xs, Py.range n = 0 :: xs.
Proof.
  intros Hn. unfold Py.range.
  destruct (Z.to_nat n) as [|m] eqn:Hm; [lia|]. simpl. by eexists.
Qed.

(** X2: with [skip=-1] the stride of the slice is 0: for every gram
    length [1 <= q <= len(s)], [QGrams(qval=q, skip=-1).tokenize(s)]
    raises [ValueError]. *)
Theorem tokenize_skip_minus_one_raises
    (q : Z) (symbols s : string) (scaler : scaler_t) :
  1 ≤ q → q ≤ Py.len s →
  new_tokenize (Int q) symbols (Int (-1)) scaler s
  = Raise (ValueError "slice step cannot be zero").
Proof.
  intros Hq Hlen. unfold new_tokenize.
  assert (∃ self, QGrams__init__ (Int q) symbols (Int (-1)) scaler
                  = Ok self
                  ∧ as_iterable (qval self) = [q]
                  ∧ as_iterable (skip self) = [-1]) as (self & -> & Hqs & Hsk).
  { destruct q as [|q|q]; [lia| |lia]. eexists.
    split; [reflexivity|]. by destruct q. }
  change (mbind ?f (Ok ?x)) with (f x). cbv beta.
  unfold tokenize.
  cbn [qval skip set_skip set_qval set_string set_ordered_tokens
       as_iterable].
  rewrite Hqs, Hsk. cbn [for_each].
  unfold tokenize_body at 1.
  cbn [_string start_stop _string_ss _ordered_tokens set_skip set_qval
       set_string set_ordered_tokens].
  rewrite bool_decide_eq_false_2 by lia. unfold grams.
  pose proof (len_padded_ge (start_stop self) s q) as Hp.
  destruct (range_pos (Py.len (padded (start_stop self) s q) - (q - 1)))
    as [xs ->]; [lia|].
  reflexivity.
Qed.

Lemma tokenize_skip_minus_one_raises_witness :
  (1 ≤ 2 ∧ 2 ≤ Py.len "AB")
  ∧ new_tokenize (Int 2) "$#" (Int (-1)) ScalerNone "AB"
    = Raise (ValueError "slice step cannot be zero").
Proof.
  assert (1 ≤ 2) as H1 by lia.
  assert (2 ≤ Py.len "AB") as H2 by (vm_compute; discriminate).
  split; [done|].
  exact (tokenize_skip_minus_one_raises 2 "$#" "AB" ScalerNone H1 H2).
Defined.

(** ** One gram length and one skip *)

Lemma append_nil_r (s : string) : s +:+ "" = s.
Proof. induction s as [|c s IH]; [done|]. by rewrite append_cons, IH. Qed.

(** With [q = 1] nothing is added to the input, whatever the boundary
    symbols. *)
Lemma padded_one (symbols s : string) : padded symbols s 1 = s.
Proof.
  destruct symbols as [|c rest]; [done|]. unfold padded. cbn [Py.mul Z.sub].
  change (Py.mul ?x (1 - 1)) with "". by rewrite append_nil_r.
Qed.

(** What [QGrams(qval=q, start_stop, skip, scaler).tokenize(s)] leaves,
    for one gram length the input reaches and one skip that is not
    negative. *)
Lemma new_tokenize_single (q sk : Z) (symbols s : string) (scaler : scaler_t) :
  1 ≤ q → q ≤ Py.len s → 0 ≤ sk →
  ∃ self',
    new_tokenize (Int q) symbols (Int sk) scaler s = Ok self'
    ∧ _ordered_tokens self'
      = gram_at (padded symbols s q) q (sk + 1)
          <$> Py.range (Py.len (padded symbols s q) - (q - 1))
    ∧ _string_ss self' = padded symbols s q
    ∧ _scaler self' = scaler.
Proof.
  intros Hq Hlen Hsk. unfold new_tokenize.
  assert (∃ self, QGrams__init__ (Int q) symbols (Int sk) scaler = Ok self
                  ∧ as_iterable (qval self) = [q]
                  ∧ as_iterable (skip self) = [sk]
                  ∧ padded (start_stop self) s q = padded symbols s q
                  ∧ _string_ss self = ""
                  ∧ _scaler self = scaler)
    as (self & -> & Hqs & Hsks & Hpad & Hss & Hsc).
  { destruct q as [|q|q]; [lia| |lia]. eexists.
    split; [reflexivity|]. destruct q; cbn; try done.
    by rewrite !padded_one. }
  change (mbind ?f (Ok ?x)) with (f x). cbv beta.
  unfold tokenize.
  cbn [qval skip set_skip set_qval set_string set_ordered_tokens
       as_iterable].
  rewrite Hqs, Hsks. cbn [for_each].
  unfold tokenize_body at 1.
  cbn [_string start_stop _string_ss _ordered_tokens set_skip set_qval
       set_string set_ordered_tokens].
  rewrite bool_decide_eq_false_2 by lia.
  rewrite Hpad, Hss.
  pose proof (len_padded_ge symbols s q) as Hp.
  rewrite grams_positive_step by lia.
  rewrite bool_decide_eq_true_2 by (unfold Py.len at 2; simpl; lia).
  eexists. split; [reflexivity|]. cbn. done.
Qed.

(** X3: the number of grams of an input of at least [q] characters,
    for one gram length [q >= 1] and one skip [>= 0]:
    [len(s) - q + 1] without boundary symbols, [len(s) + q - 1] with
    them. *)
Theorem tokenize_number_of_grams
    (q sk : Z) (symbols s : string) (scaler : scaler_t) :
  1 ≤ q → q ≤ Py.len s → 0 ≤ sk →
  ∃ self',
    new_tokenize (Int q) symbols (Int sk) scaler s = Ok self'
    ∧ Z.of_nat (length (_ordered_tokens self'))
      = if decide (symbols = "") then Py.len s - q + 1
        else Py.len s + q - 1.
Proof.
  intros Hq Hlen Hsk.
  destruct (new_tokenize_single q sk symbols s scaler Hq Hlen Hsk)
    as (self' & Hrun & Htoks & _).
  exists self'. split; [done|].
  rewrite Htoks, length_fmap, length_range, len_padded.
  case_decide; lia.
Qed.

Lemma tokenize_number_of_grams_witness :
  (1 ≤ 2 ∧ 2 ≤ Py.len "NELSON" ∧ 0 ≤ 0)
  ∧ ∃ self',
      new_tokenize (Int 2) "$#" (Int 0) ScalerNone "NELSON" = Ok self'
      ∧ Z.of_nat (length (_ordered_tokens self')) = 7.
Proof.
  assert (1 ≤ 2) as H1 by lia.
  assert (2 ≤ Py.len "NELSON") as H2 by (vm_compute; discriminate).
  assert (0 ≤ 0) as H3 by lia.
  split; [done|].
  destruct (tokenize_number_of_grams 2 0 "$#" "NELSON" ScalerNone H1 H2 H3)
    as (self' & Hrun & Hn).
  exists self'. split; [exact Hrun|]. exact Hn.
Defined.

(** X4: a fresh tokenizer stores the padded input: after
    [QGrams(qval=q, ...).tokenize(s)] with [1 <= q <= len(s)] the saved
    padded string is the input between [q - 1] start and [q - 1] stop
    symbols (the input itself without boundary symbols). *)
Theorem tokenize_saves_padded_string
    (q sk : Z) (symbols s : string) (scaler : scaler_t) :
  1 ≤ q → q ≤ Py.len s → 0 ≤ sk →
  ∃ self',
    new_tokenize (Int q) symbols (Int sk) scaler s = Ok self'
    ∧ _string_ss self' = padded symbols s q.
Proof.
  intros Hq Hlen Hsk.
  destruct (new_tokenize_single q sk symbols s scaler Hq Hlen Hsk)
    as (self' & Hrun & _ & Hss & _).
  by exists self'.
Qed.

Lemma tokenize_saves_padded_string_witness :
  (1 ≤ 3 ∧ 3 ≤ Py.len "NELSON" ∧ 0 ≤ 0)
  ∧ ∃ self',
      new_tokenize (Int 3) "$#" (Int 0) ScalerNone "NELSON" = Ok self'
      ∧ _string_ss self' = "$$NELSON##".
Proof.
  assert (1 ≤ 3) as H1 by lia.
  assert (3 ≤ Py.len "NELSON") as H2 by (vm_compute; discriminate).
  assert (0 ≤ 0) as H3 by lia.
  split; [done|].
  destruct (tokenize_saves_padded_string 3 0 "$#" "NELSON" ScalerNone
              H1 H2 H3) as (self' & Hrun & Hss).
  exists self'. split; [exact Hrun|]. exact Hss.
Defined.

(** ** Contiguous grams *)

Lemma get_ge_None (s : string) (n : nat) :
  (String.length s ≤ n)%nat → String.get n s = None.
Proof.
  revert n. induction s as [|c s IH]; intros n Hn; [done|].
  simpl in *. destruct n as [|n]; [lia|]. apply IH. lia.
Qed.

Lemma length_substring (s : string) (n m : nat) :
  (n + m ≤ String.length s)%nat → String.length (String.substring n m s) = m.
Proof.
  revert n m. induction s as [|c s IH]; intros n m Hn; simpl in *.
  - destruct n, m; simpl in *; done || lia.
  - destruct n as [|n].
    + destruct m as [|m]; [done|]. simpl. f_equal. apply IH. lia.
    + apply IH. lia.
Qed.

(** Without a skip the gram at [i] is the substring of [q] characters
    that starts at [i]. *)
Lemma gram_at_substring (p : string) (q i : Z) :
  1 ≤ q → 0 ≤ i → i + q ≤ Py.len p →
  gram_at p q 1 i = String.substring (Z.to_nat i) (Z.to_nat q) p.
Proof.
  intros Hq Hi Hfit. apply String.get_correct. intros k.
  assert (Py.len (gram_at p q 1 i) = q) as Hlen
    by (apply len_gram_at_fits; lia).
  destruct (decide (Z.of_nat k < q)) as [Hk|Hk].
  - rewrite get_gram_at by lia.
    rewrite String.substring_correct1 by lia. f_equal. lia.
  - rewrite String.substring_correct2 by lia.
    apply get_ge_None. unfold Py.len in Hlen. lia.
Qed.

(** X5: with [skip=0] the ordered tokens are the contiguous substrings
    of [q] characters of the padded input, one per start index, from
    left to right. *)
Theorem tokenize_contiguous_grams
    (q : Z) (symbols s : string) (scaler : scaler_t) :
  1 ≤ q → q ≤ Py.len s →
  ∃ self',
    new_tokenize (Int q) symbols (Int 0) scaler s = Ok self'
    ∧ _ordered_tokens self'
      = (λ i, String.substring i (Z.to_nat q) (padded symbols s q))
          <$> seq 0 (Z.to_nat (Py.len (padded symbols s q) - q + 1)).
Proof.
  intros Hq Hlen.
  destruct (new_tokenize_single q 0 symbols s scaler Hq Hlen)
    as (self' & Hrun & Htoks & _); [lia|].
  exists self'. split; [done|]. rewrite Htoks. unfold Py.range.
  rewrite <- list_fmap_compose.
  replace (Py.len (padded symbols s q) - (q - 1))
    with (Py.len (padded symbols s q) - q + 1) by lia.
  apply Forall_fmap_ext, Forall_forall. intros i Hi.
  apply elem_of_seq in Hi. simpl.
  rewrite gram_at_substring by lia. by rewrite Nat2Z.id.
Qed.

Lemma tokenize_contiguous_grams_witness :
  (1 ≤ 3 ∧ 3 ≤ Py.len "NELSON")
  ∧ ∃ self',
      new_tokenize (Int 3) "" (Int 0) ScalerNone "NELSON" = Ok self'
      ∧ _ordered_tokens self' = ["NEL"; "ELS"; "LSO"; "SON"].
Proof.
  assert (1 ≤ 3) as H1 by lia.
  assert (3 ≤ Py.len "NELSON") as H2 by (vm_compute; discriminate).
  split; [done|].
  destruct (tokenize_contiguous_grams 3 "" "NELSON" ScalerNone H1 H2)
    as (self' & Hrun & Htoks).
  exists self'. split; [exact Hrun|]. exact Htoks.
Defined.

(** ** Unigrams *)

Lemma lookup_list_ascii_of_string (s : string) (i : nat) :
  String.list_ascii_of_string s !! i = String.get i s.
Proof.
  revert i. induction s as [|c s IH]; intros i; [done|].
  destruct i as [|i]; [done|]. simpl. apply IH.
Qed.

Lemma length_list_ascii_of_string (s : string) :
  length (String.list_ascii_of_string s) = String.length s.
Proof. induction s as [|c s IH]; simpl; congruence. Qed.

Lemma string_of_length_one (t : string) c :
  String.length t = 1%nat → String.get 0 t = Some c → t = String c "".
Proof.
  destruct t as [|c' [|c'' t]]; simpl; try done. by intros _ [= ->].
Qed.

(** X6: [QGrams(qval=1, ...)] cuts an input into its characters: for
    every input, every boundary symbols and every skip [>= 0], the
    ordered tokens are the one-character strings of the input, in
    order. *)
Theorem tokenize_unigrams
    (sk : Z) (symbols s : string) (scaler : scaler_t) :
  0 ≤ sk →
  ∃ self',
    new_tokenize (Int 1) symbols (Int sk) scaler s = Ok self'
    ∧ _ordered_tokens self'
      = (λ c, String c "") <$> String.list_ascii_of_string s.
Proof.
  intros Hsk. destruct (decide (1 ≤ Py.len s)) as [Hlen|Hlen].
  - destruct (new_tokenize_single 1 sk symbols s scaler) as
      (self' & Hrun & Htoks & _); [lia|done|done|].
    exists self'. split; [done|]. rewrite Htoks, padded_one.
    apply list_eq. intros i. rewrite !list_lookup_fmap.
    rewrite lookup_list_ascii_of_string.
    destruct (decide (Z.of_nat i < Py.len s)) as [Hi|Hi].
    + rewrite lookup_range by lia. simpl.
      destruct (get_is_Some s i) as [c Hc]; [unfold Py.len in Hi; lia|].
      rewrite Hc. simpl. f_equal. apply string_of_length_one.
      * assert (Py.len (gram_at s 1 (sk + 1) (Z.of_nat i)) = 1) as Hl
          by (apply len_gram_at_fits; lia).
        unfold Py.len in Hl. lia.
      * rewrite (get_gram_at s 1 (sk + 1) (Z.of_nat i) 0); try lia.
        -- rewrite <- Hc. f_equal. lia.
        -- rewrite len_gram_at_fits; lia.
    + rewrite get_ge_None by (unfold Py.len in Hi; lia).
      rewrite lookup_ge_None_2; [done|].
      pose proof (length_range (Py.len s - (1 - 1))). lia.
  - assert (s = "") as -> by (destruct s; [done|unfold Py.len in Hlen; simpl in Hlen; lia]).
    unfold new_tokenize. cbn [QGrams__init__].
    change (mbind ?f (Ok ?x)) with (f x). cbv beta.
    match goal with
    | |- ∃ self', tokenize "" ?x = _ ∧ _ =>
        destruct (tokenize_empty_string x) as (self' & -> & Ht & _)
    end.
    exists self'. by rewrite Ht.
Qed.

Lemma tokenize_unigrams_witness :
  0 ≤ 0
  ∧ ∃ self',
      new_tokenize (Int 1) "$#" (Int 0) ScalerNone "ABA" = Ok self'
      ∧ _ordered_tokens self' = ["A"; "B"; "A"].
Proof.
  assert (0 ≤ 0) as H by lia. split; [exact H|].
  destruct (tokenize_unigrams 0 "$#" "ABA" ScalerNone H)
    as (self' & Hrun & Htoks).
  exists self'. split; [exact Hrun|]. exact Htoks.
Defined.

(** ** Several gram lengths *)

Lemma for_each_app {A S} (xs ys : list A) (body : A → S → result S) st :
  for_each (xs ++ ys) body st
  = (st' ← for_each xs body st; for_each ys body st').
Proof.
  revert st. induction xs as [|x xs IH]; intros st; simpl; [done|].
  destruct (body x st) as [e|st']; simpl; [done|]. apply IH.
Qed.

(** The loop body reads the boundary symbols and the input, and appends
    to the ordered tokens. *)
Lemma tokenize_body_extends qval_i skip_i pre x y :
  extends pre x y →
  result_rel (extends pre) (tokenize_body qval_i skip_i x)
                           (tokenize_body qval_i skip_i y).
Proof.
  intros (Hss & Hs & Htoks). unfold tokenize_body.
  rewrite <- Hs, <- Hss.
  destruct (bool_decide _); simpl; [done|].
  destruct (grams _ _ _) as [e|toks]; simpl; [done|].
  destruct (bool_decide _), (bool_decide _);
    (split; [done|split; [done|]]); cbn; rewrite Htoks;
    symmetry; apply app_assoc.
Qed.

Lemma tokenize_body_keeps qval_i skip_i x x' :
  tokenize_body qval_i skip_i x = Ok x' →
  start_stop x' = start_stop x ∧ _string x' = _string x.
Proof.
  unfold tokenize_body. destruct (bool_decide _).
  - by intros [= <-].
  - destruct (grams _ _ _) as [e|toks]; simpl; [done|].
    intros [= <-]. by destruct (bool_decide _).
Qed.

Lemma tokenize_loops s qs x :
  tokenize s (set_qval (Iterable qs) x)
  = (m ← loops qs (as_iterable (skip x)) (start_state s qs x);
     Ok (_Tokenizer_tokenize m)).
Proof. reflexivity. Qed.

Lemma loops_app qs1 qs2 sks x :
  loops (qs1 ++ qs2) sks x = (m ← loops qs1 sks x; loops qs2 sks m).
Proof. apply for_each_app. Qed.

Lemma loops_extend (qs sks : list Z) pre x y :
  extends pre x y →
  result_rel (extends pre) (loops qs sks x) (loops qs sks y).
Proof.
  intros H. apply for_each_rel; [|done].
  intros q x0 y0 H0. apply for_each_rel; [|done].
  intros sk. apply tokenize_body_extends.
Qed.

Lemma loops_keep (qs sks : list Z) x x' :
  loops qs sks x = Ok x' →
  start_stop x' = start_stop x ∧ _string x' = _string x.
Proof.
  intros Hrun.
  apply (for_each_inv
           (λ y, start_stop y = start_stop x ∧ _string y = _string x))
    in Hrun; [done| |done].
  intros q y y' Hy Hq.
  apply (for_each_inv
           (λ y, start_stop y = start_stop x ∧ _string y = _string x))
    in Hq; [done| |done].
  intros sk z z' [Hz1 Hz2] Hbody.
  apply tokenize_body_keeps in Hbody as [-> ->]. done.
Qed.

(** X7: several gram lengths accumulate into one token sequence: the
    ordered tokens for the candidate lengths [qs1 ++ qs2] are the ordered
    tokens for [qs1] followed by those for [qs2]. *)
Theorem tokenize_concatenates_gram_lengths
    (s : string) (self r1 r2 : QGrams) (qs1 qs2 : list Z) :
  tokenize s (set_qval (Iterable qs1) self) = Ok r1 →
  tokenize s (set_qval (Iterable qs2) self) = Ok r2 →
  ∃ r, tokenize s (set_qval (Iterable (qs1 ++ qs2)) self) = Ok r
       ∧ _ordered_tokens r = _ordered_tokens r1 ++ _ordered_tokens r2.
Proof.
  rewrite !tokenize_loops. set (sks := as_iterable (skip self)).
  destruct (loops qs1 sks (start_state s qs1 self)) as [e1|m1] eqn:H1;
    simpl; [done|].
  intros [= <-].
  destruct (loops qs2 sks (start_state s qs2 self)) as [e2|m2] eqn:H2;
    simpl; [done|].
  intros [= <-].
  rewrite loops_app.
  pose proof (loops_extend qs1 sks [] (start_state s qs1 self)
                (start_state s (qs1 ++ qs2) self)) as Ha.
  rewrite H1 in Ha.
  destruct (loops qs1 sks (start_state s (qs1 ++ qs2) self)) as [e|m12];
    simpl in Ha.
  { by destruct Ha. }
  destruct Ha as (Hss & Hs & Ht); [done|].
  apply loops_keep in H1 as [Hss1 Hs1].
  assert (extends (_ordered_tokens m1) (start_state s qs2 self) m12) as Hext.
  { repeat split.
    - rewrite <- Hss, Hss1. done.
    - rewrite <- Hs, Hs1. done.
    - rewrite Ht. cbn. by rewrite app_nil_r. }
  pose proof (loops_extend qs2 sks _ _ _ Hext) as Hb.
  rewrite H2 in Hb.
  change (inr m12 ≫= (λ m, loops qs2 sks m)) with (loops qs2 sks m12).
  destruct (loops qs2 sks m12) as [e|m']; simpl in Hb; [done|].
  destruct Hb as (_ & _ & Ht').
  eexists. split; [reflexivity|]. cbn. exact Ht'.
Qed.

Lemma tokenize_concatenates_gram_lengths_witness :
  ∃ self r1 r2,
    (tokenize "ABC" (set_qval (Iterable [1]) self) = Ok r1
     ∧ tokenize "ABC" (set_qval (Iterable [2]) self) = Ok r2)
    ∧ ∃ r, tokenize "ABC" (set_qval (Iterable ([1] ++ [2])) self) = Ok r
           ∧ _ordered_tokens r = _ordered_tokens r1 ++ _ordered_tokens r2.
Proof.
  pose (self := mkQGrams (Int 2) "" (Int 0) ScalerNone "" [] ∅ "").
  pose (r1 := mkQGrams (Iterable [1]) "" (Iterable [0]) ScalerNone "ABC"
                       ["A"; "B"; "C"]
                       {[ "A" := 1; "B" := 1; "C" := 1 ]} "ABC").
  pose (r2 := mkQGrams (Iterable [2]) "" (Iterable [0]) ScalerNone "ABC"
                       ["AB"; "BC"]
                       {[ "AB" := 1; "BC" := 1 ]} "ABC").
  assert (tokenize "ABC" (set_qval (Iterable [1]) self) = Ok r1) as H1
    by (vm_compute; reflexivity).
  assert (tokenize "ABC" (set_qval (Iterable [2]) self) = Ok r2) as H2
    by (vm_compute; reflexivity).
  exists self, r1, r2. split; [done|].
  exact (tokenize_concatenates_gram_lengths "ABC" self r1 r2 [1] [2] H1 H2).
Defined.

(** ** The multiset and the ordered tokens *)

Lemma occurrences_snoc tok toks x :
  occurrences tok (toks ++ [x])
  = occurrences tok toks + (if decide (x = tok) then 1 else 0).
Proof.
  unfold occurrences. rewrite filter_app, length_app.
  rewrite filter_cons, filter_nil. case_decide; simpl; lia.
Qed.

Lemma occurrences_nonneg tok toks : 0 ≤ occurrences tok toks.
Proof. unfold occurrences. lia. Qed.

(** [Counter(tokens)[tok]] is the number of occurrences of [tok]. *)
Lemma count_Counter toks tok : count (Counter toks) tok = occurrences tok toks.
Proof.
  induction toks as [|x toks IH] using rev_ind; [done|].
  rewrite Counter_snoc, occurrences_snoc. unfold count at 1.
  rewrite lookup_insert. case_decide as Heq; simpl.
  - subst x. rewrite IH. done.
  - fold (count (Counter toks) tok). lia.
Qed.

Lemma lookup_Counter toks tok :
  Counter toks !! tok
  = if decide (0 < occurrences tok toks) then Some (occurrences tok toks)
    else None.
Proof.
  pose proof (count_Counter toks tok) as Hc. unfold count in Hc.
  destruct (Counter toks !! tok) as [v|] eqn:Hv; simpl in Hc.
  - apply Counter_ge_1 in Hv. rewrite <- Hc. by rewrite decide_True by lia.
  - rewrite <- Hc. by rewrite decide_False by lia.
Qed.

Lemma total_insert (m : gmap string Z) k v :
  total (<[k:=v]> m) = total m - count m k + v.
Proof.
  assert (∀ m' : gmap string Z, m' !! k = None →
            total (<[k:=v]> m') = v + total m') as Hnone.
  { intros m' Hk. unfold total.
    rewrite (sum_permutation _ _
               (fmap_Permutation snd _ _ (map_to_list_insert m' k v Hk))).
    done. }
  unfold count. destruct (m !! k) as [w|] eqn:Hk; simpl.
  - rewrite <- insert_delete_eq, Hnone by apply lookup_delete_eq.
    unfold total at 2.
    rewrite <- (sum_permutation _ _
                  (fmap_Permutation snd _ _ (map_to_list_delete m k w Hk))).
    csimpl. unfold total, Py.sum. simpl. lia.
  - rewrite Hnone by done. lia.
Qed.

Lemma total_Counter toks : total (Counter toks) = Z.of_nat (length toks).
Proof.
  induction toks as [|x toks IH] using rev_ind; [done|].
  rewrite Counter_snoc, total_insert, IH, length_app. simpl. lia.
Qed.

(** X8: the multiset [tokenize] leaves counts the ordered tokens: without
    a scaler the count of a token is its number of occurrences and the
    counts add up to the number of ordered tokens; with ['set'] the count
    is 1 for a token that occurs; with a callable [f] it is [f] of the
    number of occurrences. A token that does not occur has no count. *)
Theorem tokenize_counts_occurrences (s : string) (self self' : QGrams)
    (tok : string) :
  tokenize s self = Ok self' →
  let n := occurrences tok (_ordered_tokens self') in
  _tokens self' !! tok
  = (if decide (0 < n) then
       Some match _scaler self with
            | ScalerNone => n
            | ScalerSet => 1
            | ScalerCallable f => f n
            end
     else None)
  ∧ (_scaler self = ScalerNone →
     total (_tokens self') = Z.of_nat (length (_ordered_tokens self'))).
Proof.
  intros Hrun n. rewrite (tokenize_tokens _ _ _ Hrun). split.
  - destruct (_scaler self) as [| |f]; simpl.
    + apply lookup_Counter.
    + rewrite lookup_fmap, lookup_Counter. fold n.
      case_decide as Hn; simpl; [|done].
      destruct (Z.ltb_spec 0 n); [done|lia].
    + rewrite lookup_fmap, lookup_Counter. fold n. by case_decide.
  - intros ->. simpl. apply total_Counter.
Qed.

Lemma tokenize_counts_occurrences_witness :
  ∃ self self',
    tokenize "AATTATAT" self = Ok self'
    ∧ _tokens self' !! "AT" = Some 3
    ∧ total (_tokens self') = 9.
Proof.
  pose (self := mkQGrams (Int 2) "$#" (Int 0) ScalerNone "" [] ∅ "").
  pose (self' :=
          mkQGrams (Iterable [2]) "$#" (Iterable [0]) ScalerNone "AATTATAT"
            ["$A"; "AA"; "AT"; "TT"; "TA"; "AT"; "TA"; "AT"; "T#"]
            {[ "AT" := 3; "TA" := 2; "$A" := 1; "AA" := 1; "TT" := 1;
               "T#" := 1 ]} "$AATTATAT#").
  assert (tokenize "AATTATAT" self = Ok self') as Hrun
    by (vm_compute; reflexivity).
  exists self, self'. split; [exact Hrun|].
  destruct (tokenize_counts_occurrences "AATTATAT" self self' "AT" Hrun)
    as [H1 H2].
  split; [exact H1|]. exact (H2 eq_refl).
Defined.

(** * The multiset operators *)

Lemma keep_positive_pos n : 0 < n → keep_positive n = Some n.
Proof. intros H. unfold keep_positive. by destruct (Z.ltb_spec 0 n); [|lia]. Qed.

Lemma keep_positive_nonpos n : n ≤ 0 → keep_positive n = None.
Proof. intros H. unfold keep_positive. by destruct (Z.ltb_spec 0 n); [lia|]. Qed.

(** The three operators, key by key. *)
Lemma lookup_Counter_and c1 c2 k :
  Counter_and c1 c2 !! k = keep_positive (Z.min (count c1 k) (count c2 k)).
Proof.
  unfold Counter_and. rewrite map_lookup_imap.
  destruct (c1 !! k) as [cnt|] eqn:Hk; simpl.
  - assert (count c1 k = cnt) as -> by (unfold count; by rewrite Hk).
    destruct (Z.ltb_spec cnt (count c2 k)); f_equal; lia.
  - assert (count c1 k = 0) as -> by (unfold count; by rewrite Hk).
    symmetry. apply keep_positive_nonpos. lia.
Qed.

Lemma lookup_Counter_add c1 c2 k :
  Counter_add c1 c2 !! k = keep_positive (count c1 k + count c2 k).
Proof.
  unfold Counter_add. rewrite lookup_merge. unfold count.
  by destruct (c1 !! k) as [x|], (c2 !! k) as [y|].
Qed.

Lemma lookup_Counter_sub c1 c2 k :
  Counter_sub c1 c2 !! k = keep_positive (count c1 k - count c2 k).
Proof.
  unfold Counter_sub. rewrite lookup_merge. unfold count.
  destruct (c1 !! k) as [x|], (c2 !! k) as [y|]; simpl; try done.
  unfold keep_positive.
  destruct (Z.ltb_spec y 0), (Z.ltb_spec 0 (0 - y)); done || lia.
Qed.

Lemma count_keep_positive (c : gmap string Z) k n :
  c !! k = keep_positive n → count c k = Z.max 0 n.
Proof.
  intros H. unfold count. rewrite H. unfold keep_positive.
  destruct (Z.ltb_spec 0 n); simpl; lia.
Qed.

Lemma lookup_positive_counts (c : gmap string Z) k :
  positive_counts c → c !! k = keep_positive (count c k).
Proof.
  intros Hc. unfold count. destruct (c !! k) as [v|] eqn:Hv; simpl.
  - apply Hc in Hv. by rewrite keep_positive_pos by lia.
  - done.
Qed.

Lemma count_nonneg (c : gmap string Z) k : positive_counts c → 0 ≤ count c k.
Proof.
  intros Hc. unfold count. destruct (c !! k) as [v|] eqn:Hv; simpl; [|done].
  apply Hc in Hv. lia.
Qed.

(** What [tokenize] leaves has positive counts, unless a callable scaler
    changed them. *)
Lemma tokenize_positive_counts s x x' :
  (∀ f, _scaler x ≠ ScalerCallable f) →
  tokenize s x = Ok x' → positive_counts (get_counter x').
Proof.
  intros Hsc Hrun tok v. unfold get_counter.
  rewrite (tokenize_tokens _ _ _ Hrun). by apply scaled_Counter_ge_1.
Qed.

(** X9: the intersection [&] and the sum [+] of two [QGrams] objects do
    not depend on the order of the operands. *)
Theorem QGrams_and_add_commute (self other : QGrams) :
  QGrams__and__ self other = QGrams__and__ other self
  ∧ QGrams__add__ self other = QGrams__add__ other self.
Proof.
  split; apply map_eq; intros k.
  - unfold QGrams__and__. rewrite !lookup_Counter_and. f_equal. lia.
  - unfold QGrams__add__. rewrite !lookup_Counter_add. f_equal. lia.
Qed.

(** X10: for two tokenized objects, what [self] shares with [other] plus
    what it has beyond [other] is [self]:
    [(self & other) + (self - other) == self.get_counter()]. *)
Theorem QGrams_and_plus_sub (self other : QGrams) :
  positive_counts (get_counter self) →
  positive_counts (get_counter other) →
  Counter_add (QGrams__and__ self other) (QGrams__sub__ self other)
  = get_counter self.
Proof.
  intros Hs Ho. apply map_eq. intros k.
  unfold QGrams__and__, QGrams__sub__. rewrite lookup_Counter_add.
  rewrite (count_keep_positive _ _ _ (lookup_Counter_and _ _ k)).
  rewrite (count_keep_positive _ _ _ (lookup_Counter_sub _ _ k)).
  rewrite (lookup_positive_counts _ k Hs).
  pose proof (count_nonneg _ k Hs). pose proof (count_nonneg _ k Ho).
  f_equal. lia.
Qed.

Lemma QGrams_and_plus_sub_witness :
  ∃ self other,
    (positive_counts (get_counter self)
     ∧ positive_counts (get_counter other))
    ∧ Counter_add (QGrams__and__ self other) (QGrams__sub__ self other)
      = get_counter self.
Proof.
  pose (fresh := mkQGrams (Int 2) "" (Int 0) ScalerNone "" [] ∅ "").
  pose (self := mkQGrams (Iterable [2]) "" (Iterable [0]) ScalerNone "ABC"
                         ["AB"; "BC"] {[ "AB" := 1; "BC" := 1 ]} "ABC").
  pose (other := mkQGrams (Iterable [2]) "" (Iterable [0]) ScalerNone "BCD"
                          ["BC"; "CD"] {[ "BC" := 1; "CD" := 1 ]} "BCD").
  assert (positive_counts (get_counter self)) as Hs.
  { apply (tokenize_positive_counts "ABC" fresh self); [done|].
    vm_compute. reflexivity. }
  assert (positive_counts (get_counter other)) as Ho.
  { apply (tokenize_positive_counts "BCD" fresh other); [done|].
    vm_compute. reflexivity. }
  exists self, other. split; [done|].
  exact (QGrams_and_plus_sub self other Hs Ho).
Defined.

(** X11: adding a tokenized object and taking it away again gives back
    the first operand: [(self + other) - other == self.get_counter()]. *)
Theorem QGrams_add_then_sub (self other : QGrams) :
  positive_counts (get_counter self) →
  positive_counts (get_counter other) →
  Counter_sub (QGrams__add__ self other) (get_counter other)
  = get_counter self.
Proof.
  intros Hs Ho. apply map_eq. intros k.
  unfold QGrams__add__. rewrite lookup_Counter_sub.
  rewrite (count_keep_positive _ _ _ (lookup_Counter_add _ _ k)).
  rewrite (lookup_positive_counts _ k Hs).
  pose proof (count_nonneg _ k Hs). pose proof (count_nonneg _ k Ho).
  f_equal. lia.
Qed.

Lemma QGrams_add_then_sub_witness :
  ∃ self other,
    (positive_counts (get_counter self)
     ∧ positive_counts (get_counter other))
    ∧ Counter_sub (QGrams__add__ self other) (get_counter other)
      = get_counter self.
Proof.
  pose (fresh := mkQGrams (Int 2) "" (Int 0) ScalerNone "" [] ∅ "").
  pose (self := mkQGrams (Iterable [2]) "" (Iterable [0]) ScalerNone "ABC"
                         ["AB"; "BC"] {[ "AB" := 1; "BC" := 1 ]} "ABC").
  pose (other := mkQGrams (Iterable [2]) "" (Iterable [0]) ScalerNone "BCD"
                          ["BC"; "CD"] {[ "BC" := 1; "CD" := 1 ]} "BCD").
  assert (positive_counts (get_counter self)) as Hs.
  { apply (tokenize_positive_counts "ABC" fresh self); [done|].
    vm_compute. reflexivity. }
  assert (positive_counts (get_counter other)) as Ho.
  { apply (tokenize_positive_counts "BCD" fresh other); [done|].
    vm_compute. reflexivity. }
  exists self, other. split; [done|].
  exact (QGrams_add_then_sub self other Hs Ho).
Defined.

(** X12: the difference of two tokenized objects is what the
    intersection leaves: [self - other == self - (self & other)], and a
    token of the difference keeps a count of at most its count in
    [self]. *)
Theorem QGrams_sub_intersection (self other : QGrams) :
  positive_counts (get_counter self) →
  positive_counts (get_counter other) →
  QGrams__sub__ self other
  = Counter_sub (get_counter self) (QGrams__and__ self other)
  ∧ ∀ tok, count (QGrams__sub__ self other) tok
           ≤ count (get_counter self) tok.
Proof.
  intros Hs Ho. split.
  - apply map_eq. intros k. unfold QGrams__sub__, QGrams__and__.
    rewrite !lookup_Counter_sub.
    rewrite (count_keep_positive _ _ _ (lookup_Counter_and _ _ k)).
    pose proof (count_nonneg _ k Hs). pose proof (count_nonneg _ k Ho).
    unfold keep_positive.
    destruct (Z.ltb_spec 0 (count (get_counter self) k
                            - count (get_counter other) k)),
             (Z.ltb_spec 0 (count (get_counter self) k
                            - Z.max 0 (Z.min (count (get_counter self) k)
                                         (count (get_counter other) k))));
      (f_equal; lia) || lia.
  - intros tok. unfold QGrams__sub__.
    rewrite (count_keep_positive _ _ _ (lookup_Counter_sub _ _ tok)).
    pose proof (count_nonneg _ tok Hs). pose proof (count_nonneg _ tok Ho).
    lia.
Qed.

Lemma QGrams_sub_intersection_witness :
  ∃ self other,
    (positive_counts (get_counter self)
     ∧ positive_counts (get_counter other))
    ∧ (QGrams__sub__ self other
       = Counter_sub (get_counter self) (QGrams__and__ self other)
       ∧ ∀ tok, count (QGrams__sub__ self other) tok
                ≤ count (get_counter self) tok).
Proof.
  pose (fresh := mkQGrams (Int 2) "" (Int 0) ScalerNone "" [] ∅ "").
  pose (self := mkQGrams (Iterable [2]) "" (Iterable [0]) ScalerNone "ABC"
                         ["AB"; "BC"] {[ "AB" := 1; "BC" := 1 ]} "ABC").
  pose (other := mkQGrams (Iterable [2]) "" (Iterable [0]) ScalerNone "BCD"
                          ["BC"; "CD"] {[ "BC" := 1; "CD" := 1 ]} "BCD").
  assert (positive_counts (get_counter self)) as Hs.
  { apply (tokenize_positive_counts "ABC" fresh self); [done|].
    vm_compute. reflexivity. }
  assert (positive_counts (get_counter other)) as Ho.
  { apply (tokenize_positive_counts "BCD" fresh other); [done|].
    vm_compute. reflexivity. }
  exists self, other. split; [done|].
  exact (QGrams_sub_intersection self other Hs Ho).
Defined.

(** * Further properties of the formulas *)

(** ** Exchanging the two strings *)

(** Tokenizing [(tar, src)] gives the two multisets of [(src, tar)] in
    opposite roles, or the same exception. *)
Lemma _tokenize_swapped (self : _TokenDistance) (src tar : string) :
  result_rel swapped (_tokenize src tar self) (_tokenize tar src self).
Proof.
  unfold _tokenize.
  destruct (tokenize src (tokenizer self)) as [e1|s1] eqn:Hs1;
    destruct (tokenize tar (tokenizer self)) as [e2|t1] eqn:Ht1; simpl.
  - apply tokenize_raises in Hs1, Ht1. congruence.
  - pose proof (tokenize_agree src (tokenizer self) t1
                  (tokenize_config _ _ _ Ht1)) as H.
    rewrite Hs1 in H. destruct (tokenize src t1); by simpl in *.
  - pose proof (tokenize_agree tar (tokenizer self) s1
                  (tokenize_config _ _ _ Hs1)) as H.
    rewrite Ht1 in H. destruct (tokenize tar s1); by simpl in *.
  - pose proof (tokenize_agree tar (tokenizer self) s1
                  (tokenize_config _ _ _ Hs1)) as H1.
    pose proof (tokenize_agree src (tokenizer self) t1
                  (tokenize_config _ _ _ Ht1)) as H2.
    rewrite Ht1 in H1. rewrite Hs1 in H2.
    destruct (tokenize tar s1) as [?|t2], (tokenize src t1) as [?|s2];
      simpl in *; try done.
    destruct H1 as [_ H1], H2 as [_ H2]. repeat split; cbn; congruence.
Qed.

Lemma observed_swapped x y : swapped x y → observed y = observed x.
Proof.
  intros (Hs & Ht & _). unfold observed. rewrite Hs, Ht.
  by rewrite (union_comm_L (dom (_src_tokens y))).
Qed.

Lemma cards_swapped x y :
  swapped x y →
  intersection_card y = intersection_card x
  ∧ src_only_card y = tar_only_card x
  ∧ tar_only_card y = src_only_card x
  ∧ population_card y = population_card x
  ∧ total_complement_card y = total_complement_card x.
Proof.
  intros Hsw. pose proof (observed_swapped x y Hsw) as Hobs.
  destruct Hsw as (Hs & Ht & Ha).
  assert (intersection_card y = intersection_card x) as Hi.
  { unfold intersection_card. rewrite Hobs, Hs, Ht. f_equal.
    apply list_fmap_ext. intros _ tok _. lia. }
  assert (src_only_card y = tar_only_card x) as Hb
    by (unfold src_only_card, tar_only_card; by rewrite Hobs, Hs, Ht).
  assert (tar_only_card y = src_only_card x) as Hc
    by (unfold src_only_card, tar_only_card; by rewrite Hobs, Hs, Ht).
  assert (population_card y = population_card x) as Hn.
  { unfold population_card. rewrite Ha. destruct (alphabet y); try done.
    rewrite Hobs, Hs, Ht. f_equal. apply list_fmap_ext. intros _ tok _. lia. }
  repeat split; try done.
  unfold total_complement_card. rewrite Hi, Hb, Hc, Hn. lia.
Qed.

Lemma _total_swapped x y : swapped x y → _total y = _total x.
Proof.
  intros (Hs & Ht & _). unfold _total. rewrite Hs, Ht. f_equal.
  apply union_with_comm. intros i v w _ _. f_equal. lia.
Qed.

(** X13: [WeightedJaccard.sim] does not depend on the order of the two
    strings, for every weight and tokenizer: it returns the same number
    or raises the same exception. *)
Theorem WeightedJaccard_sim_symmetric (self : WeightedJaccard)
    (src tar : string) :
  WeightedJaccard_sim self src tar = WeightedJaccard_sim self tar src.
Proof.
  unfold WeightedJaccard_sim.
  pose proof (_tokenize_swapped (wj_base self) src tar) as H.
  destruct (_tokenize src tar (wj_base self)) as [e1|x],
           (_tokenize tar src (wj_base self)) as [e2|y];
    simpl in *; try done; [congruence|].
  destruct (cards_swapped x y H) as (-> & -> & -> & _).
  do 2 f_equal. lia.
Qed.

(** X14: [KuhnsVIII.sim] does not depend on the order of the two
    strings. *)
Theorem KuhnsVIII_sim_symmetric (self : _TokenDistance) (src tar : string) :
  KuhnsVIII_sim self src tar = KuhnsVIII_sim self tar src.
Proof.
  unfold KuhnsVIII_sim.
  pose proof (_tokenize_swapped self src tar) as H.
  destruct (_tokenize src tar self) as [e1|x],
           (_tokenize tar src self) as [e2|y];
    simpl in *; try done; [congruence|].
  destruct (cards_swapped x y H) as (-> & -> & -> & -> & _).
  replace (2 * intersection_card x + tar_only_card x + src_only_card x)
    with (2 * intersection_card x + src_only_card x + tar_only_card x)
    by lia.
  replace (tar_only_card x + src_only_card x)
    with (src_only_card x + tar_only_card x) by lia.
  done.
Qed.

(** X15: [KuderRichardson.sim] does not depend on the order of the two
    strings. *)
Theorem KuderRichardson_sim_symmetric (self : _TokenDistance)
    (src tar : string) :
  KuderRichardson_sim self src tar = KuderRichardson_sim self tar src.
Proof.
  unfold KuderRichardson_sim.
  pose proof (_tokenize_swapped self src tar) as H.
  destruct (_tokenize src tar self) as [e1|x],
           (_tokenize tar src self) as [e2|y];
    simpl in *; try done; [congruence|].
  destruct (cards_swapped x y H) as (-> & -> & -> & _ & ->).
  f_equal; f_equal; ring.
Qed.

(** X16: [QuantitativeJaccard.sim] does not depend on the order of the
    two strings. *)
Theorem QuantitativeJaccard_sim_symmetric (self : _TokenDistance)
    (src tar : string) :
  QuantitativeJaccard_sim self src tar = QuantitativeJaccard_sim self tar src.
Proof.
  unfold QuantitativeJaccard_sim.
  pose proof (_tokenize_swapped self src tar) as H.
  destruct (_tokenize src tar self) as [e1|x],
           (_tokenize tar src self) as [e2|y];
    simpl in *; try done; [congruence|].
  rewrite (_total_swapped x y H). destruct H as (-> & -> & _).
  set (alph := elements (dom (_total x))).
  assert (Py.sum ((λ tok, count (_src_tokens y) tok * count (_tar_tokens y) tok)
                    <$> alph)
          = Py.sum ((λ tok, count (_tar_tokens y) tok
                            * count (_src_tokens y) tok) <$> alph)) as ->.
  { f_equal. apply list_fmap_ext. intros _ tok _. lia. }
  do 2 f_equal. lia.
Qed.

(** ** The cardinalities of tokenized strings *)

Lemma _tokenize_positive_counts (self base : _TokenDistance) src tar :
  (∀ f, _scaler (tokenizer self) ≠ ScalerCallable f) →
  _tokenize src tar self = Ok base →
  positive_counts (_src_tokens base) ∧ positive_counts (_tar_tokens base).
Proof.
  intros Hsc. unfold _tokenize.
  destruct (tokenize src (tokenizer self)) as [e|tk1] eqn:H1; simpl; [done|].
  destruct (tokenize tar tk1) as [e|tk2] eqn:H2; simpl; [done|].
  intros [= <-]. cbn. split.
  - by apply (tokenize_positive_counts src (tokenizer self)).
  - apply (tokenize_positive_counts tar tk1); [|done].
    apply tokenize_config in H1 as (_ & _ & _ & <-). done.
Qed.


(** Tokenizing a string against itself stores the same multiset twice. *)
Lemma _tokenize_same (self base : _TokenDistance) s :
  _tokenize s s self = Ok base →
  _src_tokens base = _tar_tokens base
  ∧ ∃ tk, tokenize s (tokenizer self) = Ok tk ∧ _src_tokens base = _tokens tk.
Proof.
  unfold _tokenize.
  destruct (tokenize s (tokenizer self)) as [e|tk1] eqn:H1; simpl; [done|].
  destruct (tokenize_twice _ _ _ H1) as (tk2 & H2 & _ & Ht).
  rewrite H2. simpl. intros [= <-]. cbn. split; [done|]. by exists tk1.
Qed.

Lemma _tokenize_raises (self : _TokenDistance) src tar e :
  _tokenize src tar self = Raise e →
  e = ValueError "slice step cannot be zero".
Proof.
  unfold _tokenize.
  destruct (tokenize src (tokenizer self)) as [e1|tk1] eqn:H1; simpl.
  - intros [= <-]. by eapply tokenize_raises.
  - destruct (tokenize tar tk1) as [e2|tk2] eqn:H2; simpl; [|done].
    intros [= <-]. by eapply tokenize_raises.
Qed.

Lemma positive_part_nonneg x y : 0 ≤ positive_part x y.
Proof. unfold positive_part. destruct (Z.ltb_spec 0 (x - y)); lia. Qed.

Lemma cards_nonneg (base : _TokenDistance) :
  positive_counts (_src_tokens base) → positive_counts (_tar_tokens base) →
  0 ≤ intersection_card base ∧ 0 ≤ src_only_card base
  ∧ 0 ≤ tar_only_card base.
Proof.
  intros Hs Ht. repeat split.
  - apply sum_fmap_nonneg. intros tok.
    pose proof (count_nonneg _ tok Hs). pose proof (count_nonneg _ tok Ht).
    lia.
  - apply sum_fmap_nonneg. intros tok. apply positive_part_nonneg.
  - apply sum_fmap_nonneg. intros tok. apply positive_part_nonneg.
Qed.

(** For a string against itself nothing is on one side only, and without
    an alphabet nothing is in the complement. *)
Lemma cards_same (base : _TokenDistance) :
  _src_tokens base = _tar_tokens base →
  src_only_card base = 0 ∧ tar_only_card base = 0
  ∧ (alphabet base = AlphabetNone → total_complement_card base = 0).
Proof.
  intros Heq.
  assert (src_only_card base = 0) as Hb.
  { unfold src_only_card. rewrite Heq. apply sum_fmap_zero. intros tok _.
    unfold positive_part. by rewrite Z.sub_diag. }
  assert (tar_only_card base = 0) as Hc.
  { unfold tar_only_card. rewrite Heq. apply sum_fmap_zero. intros tok _.
    unfold positive_part. by rewrite Z.sub_diag. }
  repeat split; try done.
  intros Ha. unfold total_complement_card. rewrite Hb, Hc.
  unfold population_card, intersection_card. rewrite Ha, Heq.
  assert (∀ l : list string,
            Py.sum ((λ tok, Z.max (count (_tar_tokens base) tok)
                                  (count (_tar_tokens base) tok)) <$> l)
            = Py.sum ((λ tok, Z.min (count (_tar_tokens base) tok)
                                    (count (_tar_tokens base) tok)) <$> l))
    as Hmax.
  { intros l. apply (f_equal Py.sum), list_fmap_ext. intros _ tok _. lia. }
  rewrite Hmax. lia.
Qed.

(** The intersection of a multiset with a key and positive counts with
    itself is not empty. *)
Lemma intersection_same_pos (base : _TokenDistance) tok v :
  _src_tokens base = _tar_tokens base →
  positive_counts (_tar_tokens base) →
  _tar_tokens base !! tok = Some v →
  0 < intersection_card base.
Proof.
  intros Heq Hpos Hv. unfold intersection_card. rewrite Heq.
  apply (sum_fmap_pos _ _ tok).
  - intros x. pose proof (count_nonneg _ x Hpos). lia.
  - unfold observed. rewrite Heq.
    apply elem_of_elements, elem_of_union_l, elem_of_dom. by eexists.
  - unfold count. rewrite Hv. simpl. apply Hpos in Hv. lia.
Qed.

(** ** Quotients *)

Lemma truediv_by_zero x : Py.truediv x (inject_Z 0) = Raise ZeroDivisionError.
Proof. reflexivity. Qed.

Lemma Qeq_bool_inject_Z_nonzero (y : Z) :
  y ≠ 0 → Qeq_bool (inject_Z y) 0 = false.
Proof.
  intros Hy. destruct (Qeq_bool (inject_Z y) 0) eqn:Heq; [|done].
  apply Qeq_bool_eq in Heq. unfold Qeq, inject_Z in Heq. simpl in Heq. lia.
Qed.

(** A part over a positive whole is between 0 and 1. *)
Lemma truediv_part_of_whole (x y : Z) :
  0 ≤ x ≤ y → 0 < y →
  ∃ r, Py.truediv (inject_Z x) (inject_Z y) = Ok r ∧ (0 <= r)%Q ∧ (r <= 1)%Q.
Proof.
  intros Hx Hy. unfold Py.truediv.
  rewrite Qeq_bool_inject_Z_nonzero by lia.
  eexists. split; [reflexivity|].
  assert (0 < inject_Z y)%Q as Hy'
    by (unfold Qlt, inject_Z; simpl; lia).
  split; rewrite Qred_correct.
  - apply Qle_shift_div_l; [done|]. rewrite Qmult_0_l.
    unfold Qle, inject_Z. simpl. lia.
  - apply Qle_shift_div_r; [done|]. rewrite Qmult_1_l.
    unfold Qle, inject_Z. simpl. lia.
Qed.

(** ** The range of the Jaccard formulas *)

(** X17: with a weight that is not negative and a tokenizer without a
    callable scaler, [WeightedJaccard.sim] returns a number between 0 and
    1, unless it raises [ZeroDivisionError] (or the tokenizer raises its
    [ValueError]). *)
Theorem WeightedJaccard_sim_range (self : WeightedJaccard)
    (src tar : string) :
  0 ≤ weight self →
  (∀ f, _scaler (tokenizer (wj_base self)) ≠ ScalerCallable f) →
  match WeightedJaccard_sim self src tar with
  | inl e => e = ZeroDivisionError
             ∨ e = ValueError "slice step cannot be zero"
  | inr r => (0 <= r)%Q ∧ (r <= 1)%Q
  end.
Proof.
  intros Hw Hsc. unfold WeightedJaccard_sim.
  destruct (_tokenize src tar (wj_base self)) as [e|base] eqn:Hbase; simpl.
  { right. by eapply _tokenize_raises. }
  destruct (_tokenize_positive_counts _ _ _ _ Hsc Hbase) as [Hs Ht].
  destruct (cards_nonneg base Hs Ht) as (Ha & Hb & Hc).
  set (a := intersection_card base) in *.
  set (b := src_only_card base) in *.
  set (c := tar_only_card base) in *.
  destruct (decide (weight self * a + b + c = 0)) as [->|Hne].
  - rewrite truediv_by_zero. by left.
  - destruct (truediv_part_of_whole (weight self * a)
                (weight self * a + b + c)) as (r & -> & Hr); [nia|nia|done].
Qed.

Lemma WeightedJaccard_sim_range_witness :
  ∃ self,
    (0 ≤ weight self
     ∧ ∀ f, _scaler (tokenizer (wj_base self)) ≠ ScalerCallable f)
    ∧ match WeightedJaccard_sim self "cat" "hat" with
      | inl e => e = ZeroDivisionError
                 ∨ e = ValueError "slice step cannot be zero"
      | inr r => (0 <= r)%Q ∧ (r <= 1)%Q
      end.
Proof.
  pose (self := mkWeightedJaccard 3
                  (mkTokenDistance
                     (mkQGrams (Int 2) "$#" (Int 0) ScalerNone "" [] ∅ "")
                     AlphabetNone ∅ ∅)).
  assert (0 ≤ weight self) as H1 by (simpl; lia).
  assert (∀ f, _scaler (tokenizer (wj_base self)) ≠ ScalerCallable f)
    as H2 by done.
  exists self. split; [split; [exact H1|exact H2]|].
  exact (WeightedJaccard_sim_range self "cat" "hat" H1 H2).
Defined.

(** X18: with a positive weight and a tokenizer without a callable
    scaler, [WeightedJaccard.sim(s, s)] is exactly 1 for every string
    whose tokenization is not empty. *)
Theorem WeightedJaccard_sim_self (self : WeightedJaccard) (s : string)
    (tk : QGrams) :
  0 < weight self →
  (∀ f, _scaler (tokenizer (wj_base self)) ≠ ScalerCallable f) →
  tokenize s (tokenizer (wj_base self)) = Ok tk →
  _ordered_tokens tk ≠ [] →
  WeightedJaccard_sim self s s = Ok 1%Q.
Proof.
  intros Hw Hsc Htk Hne. unfold WeightedJaccard_sim.
  destruct (_tokenize s s (wj_base self)) as [e|base] eqn:Hbase.
  { unfold _tokenize in Hbase. rewrite Htk in Hbase.
    destruct (tokenize_twice _ _ _ Htk) as (tk2 & H2 & _).
    simpl in Hbase. by rewrite H2 in Hbase. }
  change (mbind ?f (inr ?x)) with (f x). cbv beta.
  destruct (_tokenize_same _ _ _ Hbase) as (Heq & tk' & Htk' & Hm).
  rewrite Htk in Htk'. injection Htk' as <-.
  destruct (_tokenize_positive_counts _ _ _ _ Hsc Hbase) as [_ Ht].
  destruct (cards_same base Heq) as (-> & -> & _).
  destruct (scaled_Counter_nonempty
              (_scaler (tokenizer (wj_base self))) _ Hne) as (tok & v & Hv).
  rewrite <- (tokenize_tokens _ _ _ Htk), <- Hm, Heq in Hv.
  pose proof (intersection_same_pos base tok v Heq Ht Hv) as Ha.
  rewrite !Z.add_0_r. apply truediv_self. nia.
Qed.

Lemma WeightedJaccard_sim_self_witness :
  ∃ self tk,
    (0 < weight self
     ∧ (∀ f, _scaler (tokenizer (wj_base self)) ≠ ScalerCallable f)
     ∧ tokenize "AB" (tokenizer (wj_base self)) = Ok tk
     ∧ _ordered_tokens tk ≠ [])
    ∧ WeightedJaccard_sim self "AB" "AB" = Ok 1%Q.
Proof.
  pose (self := mkWeightedJaccard 3
                  (mkTokenDistance
                     (mkQGrams (Int 2) "$#" (Int 0) ScalerNone "" [] ∅ "")
                     AlphabetNone ∅ ∅)).
  pose (tk := mkQGrams (Iterable [2]) "$#" (Iterable [0]) ScalerNone "AB"
                       ["$A"; "AB"; "B#"]
                       {[ "$A" := 1; "AB" := 1; "B#" := 1 ]} "$AB#").
  assert (0 < weight self) as H0 by (simpl; lia).
  assert (∀ f, _scaler (tokenizer (wj_base self)) ≠ ScalerCallable f)
    as H1 by done.
  assert (tokenize "AB" (tokenizer (wj_base self)) = Ok tk) as H2
    by (vm_compute; reflexivity).
  assert (_ordered_tokens tk ≠ []) as H3 by done.
  exists self, tk. split; [done|].
  exact (WeightedJaccard_sim_self self "AB" tk H0 H1 H2 H3).
Defined.

Lemma sum_products_le {A} (f g : A → Z) l :
  2 * Py.sum ((λ x, f x * g x) <$> l)
  ≤ Py.sum ((λ x, f x * f x) <$> l) + Py.sum ((λ x, g x * g x) <$> l).
Proof.
  unfold Py.sum. induction l as [|x l IH]; csimpl; [done|].
  pose proof (Z.square_nonneg (f x - g x)). nia.
Qed.

(** X19: with a tokenizer without a callable scaler,
    [QuantitativeJaccard.sim] returns a number between 0 and 1, unless
    it raises [ZeroDivisionError] (or the tokenizer raises its
    [ValueError]). *)
Theorem QuantitativeJaccard_sim_range (self : _TokenDistance)
    (src tar : string) :
  (∀ f, _scaler (tokenizer self) ≠ ScalerCallable f) →
  match QuantitativeJaccard_sim self src tar with
  | inl e => e = ZeroDivisionError
             ∨ e = ValueError "slice step cannot be zero"
  | inr r => (0 <= r)%Q ∧ (r <= 1)%Q
  end.
Proof.
  intros Hsc. unfold QuantitativeJaccard_sim.
  destruct (_tokenize src tar self) as [e|base] eqn:Hbase; simpl.
  { right. by eapply _tokenize_raises. }
  destruct (_tokenize_positive_counts _ _ _ _ Hsc Hbase) as [Hs Ht].
  set (alph := elements (dom (_total base))).
  pose proof (sum_products_le (count (_src_tokens base))
                (count (_tar_tokens base)) alph) as Hle.
  assert (0 ≤ Py.sum ((λ tok, count (_src_tokens base) tok
                              * count (_tar_tokens base) tok) <$> alph))
    as Hp.
  { apply sum_fmap_nonneg. intros tok.
    pose proof (count_nonneg _ tok Hs). pose proof (count_nonneg _ tok Ht).
    nia. }
  set (p := Py.sum ((λ tok, count (_src_tokens base) tok
                            * count (_tar_tokens base) tok) <$> alph)) in *.
  set (ss := Py.sum ((λ tok, count (_src_tokens base) tok
                             * count (_src_tokens base) tok) <$> alph)) in *.
  set (tt := Py.sum ((λ tok, count (_tar_tokens base) tok
                             * count (_tar_tokens base) tok) <$> alph)) in *.
  destruct (decide (ss + tt - p = 0)) as [->|Hne].
  - rewrite truediv_by_zero. by left.
  - destruct (truediv_part_of_whole p (ss + tt - p)) as (r & -> & Hr);
      [lia|lia|done].
Qed.

Lemma QuantitativeJaccard_sim_range_witness :
  ∃ self,
    (∀ f, _scaler (tokenizer self) ≠ ScalerCallable f)
    ∧ match QuantitativeJaccard_sim self "cat" "hat" with
      | inl e => e = ZeroDivisionError
                 ∨ e = ValueError "slice step cannot be zero"
      | inr r => (0 <= r)%Q ∧ (r <= 1)%Q
      end.
Proof.
  pose (self := mkTokenDistance
                  (mkQGrams (Int 2) "$#" (Int 0) ScalerNone "" [] ∅ "")
                  AlphabetNone ∅ ∅).
  assert (∀ f, _scaler (tokenizer self) ≠ ScalerCallable f) as H1 by done.
  exists self. split; [exact H1|].
  exact (QuantitativeJaccard_sim_range self "cat" "hat" H1).
Defined.

(** ** A string against itself, without an alphabet *)







(** ** [KuhnsVIII] of a string against itself *)





(** * Further properties of repeated and mixed calls *)

(** X23: a call of [tokenize] forgets the earlier input: after
    [tokenize(s1)], the call [tokenize(s2)] returns whenever it returns on
    the object before, and leaves the same ordered tokens, multiset and
    stored input. *)
Theorem tokenize_forgets_earlier_input
    (s1 s2 : string) (x x1 y : QGrams) :
  tokenize s1 x = Ok x1 →
  tokenize s2 x = Ok y →
  ∃ y1, tokenize s2 x1 = Ok y1
        ∧ _ordered_tokens y1 = _ordered_tokens y
        ∧ _tokens y1 = _tokens y
        ∧ _string y1 = _string y.
Proof.
  intros H1 H2.
  pose proof (tokenize_agree s2 x x1 (tokenize_config _ _ _ H1)) as H.
  rewrite H2 in H.
  destruct (tokenize s2 x1) as [e|y1]; simpl in H; [done|].
  destruct H as ((_ & Hs & Ht) & Hc). exists y1. by repeat split.
Qed.

Lemma tokenize_forgets_earlier_input_witness :
  ∃ x x1 y,
    (tokenize "AAAAAA" x = Ok x1 ∧ tokenize "AB" x = Ok y)
    ∧ ∃ y1, tokenize "AB" x1 = Ok y1
            ∧ _ordered_tokens y1 = _ordered_tokens y
            ∧ _tokens y1 = _tokens y
            ∧ _string y1 = _string y.
Proof.
  pose (x := mkQGrams (Int 2) "$#" (Int 0) ScalerNone "" [] ∅ "").
  destruct (tokenize "AAAAAA" x) as [e|x1] eqn:H1;
    [vm_compute in H1; discriminate|].
  destruct (tokenize "AB" x) as [e|y] eqn:H2;
    [vm_compute in H2; discriminate|].
  exists x, x1, y. split; [exact (conj H1 H2)|].
  exact (tokenize_forgets_earlier_input "AAAAAA" "AB" x x1 y H1 H2).
Defined.

(** X24: a candidate length the input does not reach, or below 1, adds
    nothing: in a list of lengths it is skipped without an error, and the
    ordered tokens are those for the rest of the list. *)
Theorem tokenize_skips_unreachable_length
    (s : string) (self : QGrams) (q : Z) (qs : list Z) :
  Py.len s < q ∨ q < 1 →
  _ordered_tokens <$> tokenize s (set_qval (Iterable (q :: qs)) self)
  = _ordered_tokens <$> tokenize s (set_qval (Iterable qs) self).
Proof.
  intros Hq. rewrite !tokenize_loops.
  set (sks := as_iterable (skip self)).
  set (st := start_state s (q :: qs) self).
  assert (loops (q :: qs) sks st = loops qs sks st) as ->.
  { unfold loops. cbn [for_each].
    rewrite (for_each_skip sks); [done|].
    intros sk _. by apply tokenize_body_guarded. }
  pose proof (loops_extend qs sks [] (start_state s qs self) st) as H.
  destruct (loops qs sks (start_state s qs self)) as [e1|m1],
           (loops qs sks st) as [e2|m2];
    simpl in *.
  - f_equal. symmetry. by apply H.
  - by destruct H.
  - by destruct H.
  - destruct H as (_ & _ & ->); done.
Qed.

Lemma tokenize_skips_unreachable_length_witness :
  (Py.len "AB" < 0 ∨ 0 < 1)
  ∧ _ordered_tokens
      <$> tokenize "AB" (set_qval (Iterable (0 :: [2]))
                           (mkQGrams (Int 2) "" (Int 0) ScalerNone
                                     "" [] ∅ ""))
    = _ordered_tokens
        <$> tokenize "AB" (set_qval (Iterable [2])
                             (mkQGrams (Int 2) "" (Int 0) ScalerNone
                                       "" [] ∅ "")).
Proof.
  assert (Py.len "AB" < 0 ∨ 0 < 1) as H by (right; lia).
  split; [exact H|].
  exact (tokenize_skips_unreachable_length "AB"
           (mkQGrams (Int 2) "" (Int 0) ScalerNone "" [] ∅ "") 0 [2] H).
Defined.
